(** * Scene file server: a model of [scene_file_server.py]

    The server stores named text payloads as files of one directory and keeps
    a derived [index.txt] next to them.  This development embeds the name
    sanitizer, the directory index builder, the index rebuild, the POST
    handler and the background maintainer loop, and proves the properties the
    specification states about them. *)

From Stdlib Require Import ZArith NArith Ascii String DecimalString Lia.
From stdpp Require Import base option list sorting gmap.

Set Warnings "-register-all".

(** ** Python [str] values

    A Python [str] is a sequence of Unicode code points.  Code points are
    numbers in [N]; literals are written with [lit]. *)

Module Str.

Abbreviation char := N (only parsing).
Abbreviation str := (list N) (only parsing).

Definition chr (a : ascii) : char := N_of_ascii a.

Fixpoint lit (s : string) : str :=
  match s with
  | EmptyString => []
  | String a rest => chr a :: lit rest
  end.
Arguments lit _%_string : simpl never.
Arguments chr _%_char : simpl never.

(** The string of one line feed. *)
Definition LF : str := [10%N].

(** [s.endswith(suffix)] *)
Definition endswith (s suffix : str) : bool :=
  bool_decide (drop (length s - length suffix) s = suffix).

(** [str.isspace] on one code point: the characters [str.strip()] removes. *)
Definition isspace (c : char) : bool :=
  ((9 <=? c) && (c <=? 13))%N || ((28 <=? c) && (c <=? 32))%N
  || (c =? 133)%N || (c =? 160)%N || (c =? 5760)%N
  || ((8192 <=? c) && (c <=? 8202))%N
  || (c =? 8232)%N || (c =? 8233)%N || (c =? 8239)%N || (c =? 8287)%N
  || (c =? 12288)%N.

Fixpoint lstrip (s : str) : str :=
  match s with
  | [] => []
  | c :: rest => if isspace c then lstrip rest else s
  end.

Definition rstrip (s : str) : str := rev (lstrip (rev s)).

(** [s.strip()] *)
Definition strip (s : str) : str := rstrip (lstrip s).

(** [s.replace(old, new)] for one-character [old] and [new]. *)
Definition replace (old new : char) (s : str) : str :=
  (fun c => if (c =? old)%N then new else c) <$> s.

(** [sep.join(items)] *)
Fixpoint join (sep : str) (items : list str) : str :=
  match items with
  | [] => []
  | [x] => x
  | x :: rest => x ++ sep ++ join sep rest
  end.

(** [s.rfind(".")]: the index of the last dot, if there is one. *)
Fixpoint rfind_dot (s : str) : option nat :=
  match s with
  | [] => None
  | c :: rest =>
      match rfind_dot rest with
      | Some i => Some (S i)
      | None => if (c =? chr ".")%N then Some 0 else None
      end
  end.

(** [s.lower()].  ASCII capitals move to their small letters.  The only other
    code points whose lower case contains an ASCII character are the Kelvin
    sign and the dotted capital I; every remaining code point lowers to
    non-ASCII code points and is left in place, which a comparison with an
    ASCII literal cannot tell apart. *)
Definition lower_char (c : char) : list char :=
  if ((65 <=? c) && (c <=? 90))%N then [(c + 32)%N]
  else if (c =? 8490)%N then [chr "k"]
  else if (c =? 304)%N then [chr "i"; 775%N]
  else [c].

Definition lower (s : str) : str := flat_map lower_char s.

(** Comparison of strings: code point by code point, a proper prefix first. *)
Fixpoint le (a b : str) : bool :=
  match a, b with
  | [], _ => true
  | _ :: _, [] => false
  | x :: a', y :: b' => if (x <? y)%N then true else if (y <? x)%N then false else le a' b'
  end.

End Str.

Import Str.

(** ** The name sanitizer

    Lines 72-83 of [do_POST]: the file name a client sends is rewritten into
    a name that is safe to use inside the directory. *)

(** The character class [A-Za-z0-9_\-\. ]. *)
Definition allowed (c : char) : bool :=
  ((chr "A" <=? c) && (c <=? chr "Z"))%N
  || ((chr "a" <=? c) && (c <=? chr "z"))%N
  || ((chr "0" <=? c) && (c <=? chr "9"))%N
  || (c =? chr "_")%N || (c =? chr "-")%N || (c =? chr ".")%N || (c =? chr " ")%N.

(** [re.sub(r"[^A-Za-z0-9_\-\. ]", "_", name)] *)
Definition re_sub (name : str) : str :=
  (fun c => if allowed c then c else chr "_") <$> name.

Definition sanitize (name : str) : option str :=
  let safe_name := strip (re_sub name) in
  let safe_name := replace (chr "\") (chr "_") (replace (chr "/") (chr "_") safe_name) in
  match safe_name with
  | [] => None
  | _ =>
      if negb (endswith safe_name (lit ".txt"))
      then Some (safe_name ++ lit ".txt")
      else Some safe_name
  end.

(** The allowed set as the specification lists it. *)
Definition in_allowed_set (c : char) : Prop :=
  (65 <= c <= 90)%N \/ (97 <= c <= 122)%N \/ (48 <= c <= 57)%N
  \/ c = 95%N \/ c = 45%N \/ c = 46%N \/ c = 32%N.

(** ** Paths

    [base_dir] is resolved to an absolute path at startup, so a path is the
    list of its components below the root.  The operations are those of
    [pathlib] on POSIX paths; [suffix] and [stem] split the name at
    [i = name.rfind(".")] when [0 < i < len(name) - 1]. *)

Abbreviation path := (list (list N)) (only parsing).

Module Path.

(** [p.name]: the final component. *)
Definition name (p : path) : str := default [] (last p).

(** [p.parent] *)
Definition parent (p : path) : path := removelast p.

(** Where the final component splits into stem and suffix: at its last dot,
    unless that dot opens or closes the name. *)
Definition split_point (nm : str) : option nat :=
  match rfind_dot nm with
  | Some i => if (0 <? i)%nat && (i <? length nm - 1)%nat then Some i else None
  | None => None
  end.

(** [p.suffix] *)
Definition suffix (p : path) : str :=
  match split_point (name p) with
  | Some i => drop i (name p)
  | None => []
  end.

(** [p.stem] *)
Definition stem (p : path) : str :=
  match split_point (name p) with
  | Some i => take i (name p)
  | None => name p
  end.

Fixpoint split_slash (s : str) : list str :=
  match s with
  | [] => [[]]
  | c :: rest =>
      if (c =? chr "/")%N then [] :: split_slash rest
      else match split_slash rest with
           | h :: t => (c :: h) :: t
           | [] => [[c]]
           end
  end.

(** The components a string denotes: empty components and [.] are dropped,
    [..] is kept. *)
Definition parts (s : str) : path :=
  filter (fun c => c <> [] /\ c <> lit ".") (split_slash s).

(** [base / s]: an absolute [s] replaces [base]. *)
Definition truediv (base : path) (s : str) : path :=
  match s with
  | c :: _ => if (c =? chr "/")%N then parts s else base ++ parts s
  | [] => base
  end.

End Path.

(** ** The file system and the I/O monad *)

Inductive node :=
  | RegularFile (content : str)
  | Directory.

Inductive exn :=
  | IsADirectoryError (filename : path)
  | FileNotFoundError (filename : path)
  | NotADirectoryError (filename : path)
  | OSError (errno : Z) (strerror : str)
  | UnicodeEncodeError (object : str)
  | ValueError (message : str).

(** [isinstance(e, OSError)]: the two last classes are not. *)
Definition is_OSError (e : exn) : bool :=
  match e with
  | UnicodeEncodeError _ | ValueError _ => false
  | _ => true
  end.

(** Text the program prints or sends: literal pieces and [str(e)] of an
    exception. *)
Inductive fragment :=
  | Literal (s : str)
  | StrOf (e : exn).

Abbreviation text := (list fragment) (only parsing).

(** The world a call runs in: the files, the answers of the operating system
    to the coming I/O calls ([None]: the call is carried out, [Some e]: it
    raises [e]; once the list is used up every call is carried out), and the
    lines printed so far. *)
Record world := World {
  files : gmap path node;
  pending : list (option exn);
  stdout : list text
}.

Inductive result (A : Type) :=
  | Ok (a : A)
  | Raise (e : exn).
Arguments Ok {A} a.
Arguments Raise {A} e.

Definition IO (A : Type) : Type := world -> result A * world.

Definition ret {A} (a : A) : IO A := fun w => (Ok a, w).

Definition raise {A} (e : exn) : IO A := fun w => (Raise e, w).

Definition bind {A B} (m : IO A) (k : A -> IO B) : IO B :=
  fun w =>
    match m w with
    | (Ok a, w') => k a w'
    | (Raise e, w') => (Raise e, w')
    end.

(** [try: m  except Exception as e: ...]: the outcome of [m] as a value. *)
Definition attempt {A} (m : IO A) : IO (result A) :=
  fun w => let '(r, w') := m w in (Ok r, w').

Declare Scope io_scope.
Delimit Scope io_scope with io.
Notation "x <- m ;; k" := (bind m (fun x => k))
  (at level 100, m at next level, k at level 200, right associativity) : io_scope.
Notation "m ;; k" := (bind m (fun _ => k))
  (at level 100, k at level 200, right associativity) : io_scope.
Local Open Scope io_scope.

(** The operating system's answer to one I/O call. *)
Definition os_call : IO unit :=
  fun w =>
    match pending w with
    | [] => (Ok tt, w)
    | None :: rest => (Ok tt, World (files w) rest (stdout w))
    | Some e :: rest => (Raise e, World (files w) rest (stdout w))
    end.

Definition get_files : IO (gmap path node) := fun w => (Ok (files w), w).

Definition print (line : text) : IO unit :=
  fun w => (Ok tt, World (files w) (pending w) (stdout w ++ [line])).

Definition is_dir (fs : gmap path node) (p : path) : bool :=
  match p with
  | [] => true
  | _ => match fs !! p with
         | Some Directory => true
         | _ => false
         end
  end.

(** [p.is_file()] *)
Definition is_file (fs : gmap path node) (p : path) : bool :=
  match fs !! p with
  | Some (RegularFile _) => true
  | _ => false
  end.

(** The entries directly inside [d]. *)
Definition children (fs : gmap path node) (d : path) : list path :=
  filter (fun p => p <> [] /\ Path.parent p = d) (fst <$> map_to_list fs).

(** [d.iterdir()], read to its end. *)
Definition iterdir (d : path) : IO (list path) :=
  os_call ;;
  fs <- get_files ;;
  if is_dir fs d then ret (children fs d)
  else match fs !! d with
       | Some _ => raise (NotADirectoryError d)
       | None => raise (FileNotFoundError d)
       end.

(** *** Names and contents the system accepts *)

(** The surrogates, which the UTF-8 encoder refuses, and among them the
    escapes by which a file name carries a byte that is no UTF-8. *)
Definition is_surrogate (c : char) : bool := ((55296 <=? c) && (c <=? 57343))%N.

Definition is_escape (c : char) : bool := ((56448 <=? c) && (c <=? 56575))%N.

(** [s.encode("utf-8")] goes through. *)
Definition encodable (s : str) : bool :=
  forallb (fun c => negb (is_surrogate c)) s.

(** [os.fsencode] of a path goes through: no surrogate other than an escape
    ([UnicodeEncodeError]) and no null character ([ValueError]). *)
Definition fs_encodable (p : path) : bool :=
  forallb (forallb (fun c => negb (is_surrogate c) || is_escape c)) p.

Definition no_null (p : path) : bool :=
  forallb (forallb (fun c => negb (c =? 0)%N)) p.

(** The bytes of a name on disk, and the most a name may have (the
    [NAME_MAX] of the Linux file systems). *)
Definition fs_bytes (c : char) : nat :=
  if (c <? 128)%N then 1
  else if (c <? 2048)%N then 2
  else if is_escape c then 1
  else if (c <? 65536)%N then 3
  else 4.

Definition name_bytes (n : str) : nat := foldr (fun c k => fs_bytes c + k) 0 n.

Definition NAME_MAX : nat := 255.

Definition name_too_long (p : path) : bool := (NAME_MAX <? name_bytes (Path.name p))%nat.

(** The bytes of an absolute path, each component after its separator, and
    the most a path may have with its closing null byte (the [PATH_MAX] of
    Linux). *)
Definition path_bytes (p : path) : N :=
  foldr (fun c k => 1 + N.of_nat (name_bytes c) + k)%N 0%N p.

Definition PATH_MAX : N := 4096.

Definition path_too_long (p : path) : bool := (PATH_MAX <=? path_bytes p)%N.

(** What refuses a path whatever the files are: Python when it encodes the
    path, and the system when it reads a path that is too long. *)
Definition path_error (p : path) : option exn :=
  if negb (fs_encodable p) then Some (UnicodeEncodeError (Path.name p))
  else if negb (no_null p) then Some (ValueError (lit "embedded null byte"))
  else if path_too_long p then Some (OSError 36 (lit "File name too long"))
  else None.

(** [open(p, "w")]: the file is made, or emptied when it is there. *)
Definition open_w (p : path) : IO unit :=
  match path_error p with
  | Some e => raise e
  | None =>
      os_call ;;
      fun w =>
        let fs := files w in
        if is_dir fs p then (Raise (IsADirectoryError p), w)
        else if is_dir fs (Path.parent p)
        then
          if name_too_long p
          then (Raise (OSError 36 (lit "File name too long")), w)
          else (Ok tt, World (<[p := RegularFile []]> fs) (pending w) (stdout w))
        else match fs !! Path.parent p with
             | Some _ => (Raise (NotADirectoryError p), w)
             | None => (Raise (FileNotFoundError p), w)
             end
  end.

(** [f.write(content)] and the closing of [f]: the content is encoded first,
    and a fault of the system leaves the file as [open] left it. *)
Definition write_close (p : path) (content : str) : IO unit :=
  if encodable content
  then
    os_call ;;
    fun w => (Ok tt, World (<[p := RegularFile content]> (files w)) (pending w) (stdout w))
  else raise (UnicodeEncodeError content).

(** [p.write_text(content, encoding="utf-8")]: [p] is opened for writing,
    which empties it, and only then is the content encoded and written. *)
Definition write_text (p : path) (content : str) : IO unit :=
  open_w p ;;
  write_close p content.

(** ** The directory index builder and the index rebuild *)

Definition str_le : relation str := fun a b => le a b = true.

#[global] Instance str_le_dec : RelDecision str_le :=
  fun a b => decide (le a b = true).

(** [sorted(names)] *)
Definition sorted (names : list str) : list str := merge_sort str_le names.

(** The filter of the comprehension in [list_all_files]. *)
Definition is_entry (fs : gmap path node) (p : path) : bool :=
  is_file fs p
  && bool_decide (lower (Path.suffix p) = lit ".txt")
  && negb (bool_decide (Path.name p = lit "index.txt")).

Definition list_all_files (base_dir : path) : IO (list str) :=
  entries <- iterdir base_dir ;;
  fs <- get_files ;;
  let names := Path.stem <$> filter (fun p => is_entry fs p = true) entries in
  ret (sorted names).

(** What a scan returns when the operating system carries it out. *)
Definition listing (fs : gmap path node) (base_dir : path) : list str :=
  sorted (Path.stem <$> filter (fun p => is_entry fs p = true) (children fs base_dir)).

(** The index as the specification words it: the names of the regular files
    directly inside the directory that end in the entry suffix in any case and
    are not [index.txt], each without its last four characters.  A name that
    is nothing but the suffix has no extension. *)
Definition regular_files_in (fs : gmap path node) (d : path) : list str :=
  omap (fun entry =>
          match entry.2 with
          | RegularFile _ =>
              if decide (entry.1 <> [] /\ Path.parent entry.1 = d)
              then Some (Path.name entry.1) else None
          | Directory => None
          end) (map_to_list fs).

(** The strings that lower to [.txt]: a dot and the three letters, each in
    either case. *)
Definition txt_variant (e : str) : Prop :=
  exists t x t', e = [chr "."; t; x; t']
    /\ (t = chr "t" \/ t = chr "T") /\ (x = chr "x" \/ x = chr "X")
    /\ (t' = chr "t" \/ t' = chr "T").

Definition has_entry_suffix (n : str) : Prop :=
  4 < length n /\ lower (drop (length n - 4) n) = lit ".txt".

Definition strip_entry_suffix (n : str) : str := take (length n - 4) n.

Definition spec_index (fs : gmap path node) (d : path) : list str :=
  strip_entry_suffix
    <$> filter (fun n => has_entry_suffix n /\ n <> lit "index.txt")
          (regular_files_in fs d).

Definition index_content (names : list str) : str :=
  join LF names ++ (match names with [] => [] | _ => LF end).

Definition write_all_scene_names (base_dir : path) : IO unit :=
  names <- list_all_files base_dir ;;
  let content := index_content names in
  write_text (Path.truediv base_dir (lit "index.txt")) content.

(** ** The POST handler *)

(** A decoded JSON value.  A float is kept as the text [repr] prints for it;
    the members of an object are listed once per key. *)
Inductive json :=
  | JNull
  | JBool (b : bool)
  | JInt (n : Z)
  | JFloat (shown : str)
  | JStr (s : str)
  | JList (items : list json)
  | JDict (members : list (str * json)).

(** Functions of the Python library the handler calls and this development
    does not unfold: [int] on a header value ([None] stands for
    [ValueError]), [json.loads(raw.decode("utf-8"))] on the bytes of a body
    ([None] stands for any exception), and [repr] of a string.  Two facts
    about them are relied on: [int("0")] is [0], and the empty document is no
    JSON value. *)
Class Library := {
  py_int : str -> option Z;
  json_loads : list Byte.byte -> option json;
  str_repr : str -> str;
  py_int_zero : py_int (lit "0") = Some 0%Z;
  json_loads_empty : json_loads [] = None
}.

Definition decimal (n : Z) : str := lit (NilZero.string_of_int (Z.to_int n)).

Fixpoint dict_get (key : str) (members : list (str * json)) : option json :=
  match members with
  | [] => None
  | (k, v) :: rest => if bool_decide (k = key) then Some v else dict_get key rest
  end.

(** What the handler replies: the object given to [json.dumps]. *)
Inductive reply :=
  | ReplyFile (file : str)
  | ReplyError (error : text).

Record response := Response {
  status : Z;
  body : reply
}.

Record request := Request {
  content_length : option str;
  rfile : list Byte.byte
}.

(** Lines 85-99: the write of the entry, the index rebuild and the reply. *)
Definition store_entry (base_dir : path) (safe_name contents : str) : IO response :=
  let target_path := Path.truediv base_dir safe_name in
  r <- attempt (write_text target_path contents ;;
                write_all_scene_names base_dir) ;;
  match r with
  | Raise e => ret (Response 500 (ReplyError [StrOf e]))
  | Ok _ => ret (Response 200 (ReplyFile (Path.name target_path)))
  end.

(** Lines 71-99: from the two strings on. *)
Definition store (base_dir : path) (name contents : str) : IO response :=
  match sanitize name with
  | None => ret (Response 400 (ReplyError [Literal (lit "Empty or invalid FileName")]))
  | Some safe_name => store_entry base_dir safe_name contents
  end.

Section Handler.

Context {lib : Library}.
Variable base_dir : path.

Fixpoint py_repr (v : json) : str :=
  match v with
  | JNull => lit "None"
  | JBool true => lit "True"
  | JBool false => lit "False"
  | JInt n => decimal n
  | JFloat shown => shown
  | JStr s => str_repr s
  | JList items => lit "[" ++ join (lit ", ") (py_repr <$> items) ++ lit "]"
  | JDict members =>
      lit "{"
      ++ join (lit ", ")
           ((fun kv => str_repr (fst kv) ++ lit ": " ++ py_repr (snd kv)) <$> members)
      ++ lit "}"
  end.

(** [str(v)] *)
Definition py_str (v : json) : str :=
  match v with
  | JStr s => s
  | _ => py_repr v
  end.

(** Lines 58-99: from the decoded payload on. *)
Definition handle_payload (payload : json) : IO response :=
  match payload with
  | JDict members =>
      match dict_get (lit "FileName") members, dict_get (lit "Contents") members with
      | Some file_name, Some file_contents =>
          let name := py_str file_name in
          let contents := py_str file_contents in
          store base_dir name contents
      | _, _ =>
          ret (Response 400 (ReplyError [Literal (lit "Missing 'FileName' or 'Contents'")]))
      end
  | _ => ret (Response 400 (ReplyError [Literal (lit "JSON body must be an object")]))
  end.

(** [int(self.headers.get("Content-Length", "0") or "0")], with [0] for
    [ValueError]. *)
Definition body_length (req : request) : Z :=
  let header := default (lit "0") (content_length req) in
  let header := match header with [] => lit "0" | _ => header end in
  default 0%Z (py_int header).

(** The ways the [Content-Length] header can fail to announce a body:
    missing, empty, not a number, not positive. *)
Definition bad_content_length (header : option str) : Prop :=
  header = None
  \/ header = Some []
  \/ (exists s, header = Some s /\ py_int s = None)
  \/ (exists s n, header = Some s /\ py_int s = Some n /\ (n <= 0)%Z).

Definition do_POST (req : request) : IO response :=
  let length := body_length req in
  let raw := if (0 <? length)%Z then take (Z.to_nat length) (rfile req) else [] in
  match json_loads raw with
  | None => ret (Response 400 (ReplyError [Literal (lit "Invalid JSON body")]))
  | Some payload => handle_payload payload
  end.

End Handler.

(** An instance to run the handler on examples: [int] reads plain decimal
    numerals with an optional sign, [json.loads] knows the one document
    [numbered_body], and [repr] puts a string between apostrophes. *)
Fixpoint digits (acc : Z) (s : str) : option Z :=
  match s with
  | [] => Some acc
  | c :: rest =>
      if ((chr "0" <=? c) && (c <=? chr "9"))%N
      then digits (10 * acc + Z.of_N (c - chr "0")) rest
      else None
  end.

Definition plain_int (s : str) : option Z :=
  match s with
  | [] => None
  | c :: rest =>
      if (c =? chr "-")%N then
        match rest with [] => None | _ => Z.opp <$> digits 0 rest end
      else if (c =? chr "+")%N then
        match rest with [] => None | _ => digits 0 rest end
      else digits 0 s
  end.

Definition bytes (s : string) : list Byte.byte := list_byte_of_string s.
Arguments bytes _%_string.

Definition quote : list Byte.byte := [Byte.x22].

(** The body [{"FileName": 123, "Contents": true}] and what it decodes to. *)
Definition numbered_body : list Byte.byte :=
  bytes "{" ++ quote ++ bytes "FileName" ++ quote ++ bytes ": 123, "
  ++ quote ++ bytes "Contents" ++ quote ++ bytes ": true}".

Definition numbered_payload : json :=
  JDict [(lit "FileName", JInt 123); (lit "Contents", JBool true)].

Fixpoint bytes_eqb (a b : list Byte.byte) : bool :=
  match a, b with
  | [], [] => true
  | x :: a', y :: b' => Byte.eqb x y && bytes_eqb a' b'
  | _, _ => false
  end.

Definition plain_library : Library := {|
  py_int := plain_int;
  json_loads := fun raw =>
    if bytes_eqb raw numbered_body then Some numbered_payload else None;
  str_repr := fun s => lit "'" ++ s ++ lit "'";
  py_int_zero := eq_refl;
  json_loads_empty := eq_refl
|}.

(** ** The index maintainer *)

(** The body of the loop: one rebuild, a failure printed as a warning.  The
    wait that ends a turn changes nothing the world holds. *)
Definition maintain_once (base_dir : path) : IO unit :=
  r <- attempt (write_all_scene_names base_dir) ;;
  match r with
  | Raise e => print [Literal (lit "Warning: invariant update failed: "); StrOf e]
  | Ok _ => ret tt
  end.

(** How far the loop has come when the observations of the stop event are
    used up: left through the [while], still turning, or ended by an
    exception that escaped the body. *)
Inductive loop_state :=
  | Exited (w : world)
  | Running (w : world)
  | Died (e : exn) (w : world).

(** [_invariant_loop], driven by the successive answers of
    [stop_event.is_set()] at the head of the [while]. *)
Fixpoint _invariant_loop (base_dir : path) (stop_event : list bool) (w : world)
  : loop_state :=
  match stop_event with
  | [] => Running w
  | true :: _ => Exited w
  | false :: later =>
      match maintain_once base_dir w with
      | (Ok _, w') => _invariant_loop base_dir later w'
      | (Raise e, w') => Died e w'
      end
  end.

(** ** Worlds and payloads of the examples *)

Definition srv : path := [lit "srv"].

(** No directory at all, the directory alone, and the directory with two
    entries, an index, a hidden file, a subdirectory and a foreign file. *)
Definition no_dir : world := World ∅ [] [].

Definition empty_dir : world := World {[srv := Directory]} [] [].

Definition sample_files : gmap path node :=
  <[srv ++ [lit "b.TXT"] := RegularFile (lit "second")]>
  (<[srv ++ [lit "a.txt"] := RegularFile (lit "first")]>
  (<[srv ++ [lit "index.txt"] := RegularFile (lit "stale")]>
  (<[srv ++ [lit ".txt"] := RegularFile []]>
  (<[srv ++ [lit "sub.txt"] := Directory]>
  (<[srv ++ [lit "notes.md"] := RegularFile []]>
  {[srv := Directory]}))))).

Definition sample_dir : world := World sample_files [] [].

(** * Further functions *)

(** ** Reading the index back *)

(** The lines of a text in which a line feed closes each line; [cur] holds
    the line being read, last character first. *)
Fixpoint lines_from (cur : str) (s : str) : list str :=
  match s with
  | [] => match cur with [] => [] | _ => [rev cur] end
  | c :: rest =>
      if (c =? 10)%N then rev cur :: lines_from [] rest
      else lines_from (c :: cur) rest
  end.

Definition lines (s : str) : list str := lines_from [] s.

(** The index file holds the index of the directory it lies in. *)
Definition index_consistent (fs : gmap path node) (d : path) : Prop :=
  fs !! (d ++ [lit "index.txt"])
  = Some (RegularFile (index_content (listing fs d))).

(** The world the loop has reached. *)
Definition world_of (s : loop_state) : world :=
  match s with
  | Exited w => w
  | Running w => w
  | Died _ w => w
  end.

(** Two entries that differ in the case of the suffix only. *)
Definition twins_dir : world :=
  World (<[srv ++ [lit "a.TXT"] := RegularFile (lit "second")]>
         (<[srv ++ [lit "a.txt"] := RegularFile (lit "first")]>
          {[srv := Directory]})) [] [].

(** ** Startup *)

(** [except FileNotFoundError]: an [OSError] whose [errno] is [ENOENT] is of
    that class. *)
Definition is_FileNotFoundError (e : exn) : bool :=
  match e with
  | FileNotFoundError _ => true
  | OSError errno _ => (errno =? 2)%Z
  | _ => false
  end.

(** [os.mkdir(p)]; [errno] 17 is [EEXIST], 36 is [ENAMETOOLONG]. *)
Definition os_mkdir (p : path) : IO unit :=
  match path_error p with
  | Some e => raise e
  | None =>
      os_call ;;
      fun w =>
        let fs := files w in
        match p, fs !! p with
        | [], _ | _, Some _ => (Raise (OSError 17 (lit "File exists")), w)
        | _, None =>
            if is_dir fs (Path.parent p)
            then
              if name_too_long p
              then (Raise (OSError 36 (lit "File name too long")), w)
              else (Ok tt, World (<[p := Directory]> fs) (pending w) (stdout w))
            else match fs !! Path.parent p with
                 | Some _ => (Raise (NotADirectoryError p), w)
                 | None => (Raise (FileNotFoundError p), w)
                 end
        end
  end.

(** The [except OSError] clause of [Path.mkdir] with [exist_ok=True]: the
    exception is dropped when the directory is there. *)
Definition mkdir_exists (p : path) (e : exn) : IO unit :=
  if is_OSError e
  then fs <- get_files ;; if is_dir fs p then ret tt else raise e
  else raise e.

(** [p.mkdir(parents=False, exist_ok=True)] *)
Definition mkdir_here (p : path) : IO unit :=
  r <- attempt (os_mkdir p) ;;
  match r with
  | Ok _ => ret tt
  | Raise e => if is_FileNotFoundError e then raise e else mkdir_exists p e
  end.

(** [p.mkdir(parents=True, exist_ok=True)], the components of [p] given last
    first: a missing parent is made in the same way and the directory is
    then made with [parents=False]. *)
Fixpoint mkdir_parents (rp : list str) : IO unit :=
  let p := rev rp in
  r <- attempt (os_mkdir p) ;;
  match r with
  | Ok _ => ret tt
  | Raise e =>
      if is_FileNotFoundError e then
        match rp with
        | [] => raise e
        | _ :: rparent => mkdir_parents rparent ;; mkdir_here p
        end
      else mkdir_exists p e
  end.

Definition mkdir (p : path) : IO unit := mkdir_parents (rev p).

(** Lines 107-112 of [run]: the directory is made and the index is
    initialised, a failure of the latter printed as a warning. *)
Definition run_startup (base_dir : path) : IO unit :=
  mkdir base_dir ;;
  r <- attempt (write_all_scene_names base_dir) ;;
  match r with
  | Raise e =>
      print [Literal (lit "Warning: failed to initialize index.txt: "); StrOf e]
  | Ok _ => ret tt
  end.



(** * Proofs *)

(** Boolean tests on code points as propositions. *)
Ltac char_facts :=
  repeat match goal with
  | H : _ && _ = true |- _ => apply andb_true_iff in H; destruct H
  | H : _ || _ = true |- _ => apply orb_true_iff in H; destruct H
  | H : (_ <=? _)%N = true |- _ => apply N.leb_le in H
  | H : (_ =? _)%N = true |- _ => apply N.eqb_eq in H
  | H : (_ <=? _)%N = false |- _ => apply N.leb_gt in H
  | H : (_ =? _)%N = false |- _ => apply N.eqb_neq in H
  end.

(** Code points of character literals as numerals. *)
Ltac eval_chr :=
  repeat match goal with
  | |- context [chr ?a] =>
      let v := eval vm_compute in (chr a) in change (chr a) with v
  | H : context [chr ?a] |- _ =>
      let v := eval vm_compute in (chr a) in change (chr a) with v in H
  end.

(** *** The sanitizer *)

Lemma allowed_spec c : allowed c = true <-> in_allowed_set c.
Proof.
  unfold allowed, in_allowed_set. eval_chr.
  rewrite !orb_true_iff, !andb_true_iff, !N.leb_le, !N.eqb_eq. tauto.
Qed.

Lemma re_sub_allowed name : Forall in_allowed_set (re_sub name).
Proof.
  unfold re_sub. apply Forall_fmap, Forall_forall. intros c _. simpl.
  destruct (allowed c) eqn:E.
  - by apply allowed_spec.
  - by apply allowed_spec.
Qed.

Lemma lstrip_suffix s : lstrip s `suffix_of` s.
Proof.
  induction s as [|c s IH]; simpl; [done|].
  destruct (isspace c); [by apply suffix_cons_r | done].
Qed.

Lemma Forall_suffix {A} (P : A -> Prop) (l k : list A) :
  l `suffix_of` k -> Forall P k -> Forall P l.
Proof. intros [m ->] H. by apply Forall_app in H as [_ H]. Qed.

Lemma strip_Forall (P : N -> Prop) s : Forall P s -> Forall P (strip s).
Proof.
  intros H. unfold strip, rstrip. apply Forall_rev.
  eapply Forall_suffix; [apply lstrip_suffix|]. apply Forall_rev.
  eapply Forall_suffix; [apply lstrip_suffix|done].
Qed.

Lemma replace_id old new s : old ∉ s -> replace old new s = s.
Proof.
  unfold replace. induction s as [|c s IH]; intros H; [done|].
  apply not_elem_of_cons in H as [H1 H2]. rewrite fmap_cons, IH by done.
  destruct (N.eqb_spec c old); congruence.
Qed.

Lemma allowed_no_separator s :
  Forall in_allowed_set s -> (chr "/" ∉ s) /\ (chr "\" ∉ s).
Proof.
  intros H. split; intros Hin; eapply Forall_forall in H; eauto;
    unfold in_allowed_set in H; eval_chr; lia.
Qed.

Lemma endswith_spec s suffix : endswith s suffix = true <-> suffix `suffix_of` s.
Proof.
  unfold endswith. rewrite bool_decide_eq_true. split.
  - intros H. exists (take (length s - length suffix) s).
    remember (length s - length suffix) as n. rewrite <- H. by rewrite take_drop.
  - intros [k ->]. rewrite length_app.
    replace (length k + length suffix - length suffix) with (length k) by lia.
    by rewrite drop_app_length.
Qed.

(** The sanitizer in one equation: the two replacements find nothing left to
    replace. *)
Lemma sanitize_eq name :
  sanitize name =
    let s := strip (re_sub name) in
    match s with
    | [] => None
    | _ => Some (if endswith s (lit ".txt") then s else s ++ lit ".txt")
    end.
Proof.
  unfold sanitize.
  pose proof (strip_Forall _ _ (re_sub_allowed name)) as Hs.
  destruct (allowed_no_separator _ Hs) as [H1 H2].
  rewrite (replace_id (chr "/")) by done. rewrite (replace_id (chr "\")) by done.
  simpl. destruct (strip (re_sub name)); [done|]. by destruct (endswith _ _).
Qed.

Lemma sanitize_Some name safe_name :
  sanitize name = Some safe_name ->
  safe_name <> [] /\ Forall in_allowed_set safe_name
  /\ lit ".txt" `suffix_of` safe_name.
Proof.
  rewrite sanitize_eq. cbv zeta.
  pose proof (strip_Forall _ _ (re_sub_allowed name)) as Hs.
  destruct (strip (re_sub name)) as [|c s] eqn:E; [done|].
  destruct (endswith (c :: s) (lit ".txt")) eqn:Hend; intros [= <-].
  - repeat split; [done | done | by apply endswith_spec].
  - repeat split; [done | | by exists (c :: s)].
    apply (Forall_app _ (c :: s)). split; [done|].
    vm_compute (lit ".txt"). repeat constructor; unfold in_allowed_set; lia.
Qed.

Lemma sanitize_None name : sanitize name = None <-> strip (re_sub name) = [].
Proof.
  rewrite sanitize_eq. cbv zeta. by destruct (strip (re_sub name)).
Qed.

Lemma lstrip_nil s : lstrip s = [] <-> Forall (fun c => isspace c = true) s.
Proof.
  induction s as [|c s IH]; simpl; [by split|].
  destruct (isspace c) eqn:E.
  - rewrite IH. split; [by constructor | by intros [_ ?]%Forall_cons].
  - split; [done | intros [? _]%Forall_cons; congruence].
Qed.

Lemma lstrip_Forall_space s :
  Forall (fun c => isspace c = true) (lstrip s)
  <-> Forall (fun c => isspace c = true) s.
Proof.
  induction s as [|c s IH]; simpl; [done|].
  destruct (isspace c) eqn:E; [|done].
  rewrite IH. split; [by constructor | by intros [_ ?]%Forall_cons].
Qed.

Lemma Forall_rev_iff {A} (P : A -> Prop) l : Forall P (rev l) <-> Forall P l.
Proof.
  split; intros H%Forall_rev; [by rewrite rev_involutive in H | done].
Qed.

Lemma strip_nil s : strip s = [] <-> Forall (fun c => isspace c = true) s.
Proof.
  unfold strip, rstrip. rewrite <- lstrip_Forall_space.
  rewrite <- (Forall_rev_iff _ (lstrip s)), <- lstrip_nil.
  split; [|by intros ->]. intros H. apply (f_equal (@rev N)) in H.
  by rewrite rev_involutive in H.
Qed.

Lemma re_sub_space c :
  isspace (if allowed c then c else chr "_") = true <-> c = chr " ".
Proof.
  split; [|by intros ->].
  destruct (allowed c) eqn:Ha.
  - apply allowed_spec in Ha. unfold in_allowed_set in Ha. unfold isspace. eval_chr.
    intros H. char_facts; lia.
  - vm_compute. done.
Qed.

(** The sanitizer rejects the names made of spaces only, the empty name among
    them, and no other: a tab or a line feed becomes an underscore before the
    trimming. *)
Lemma sanitize_None_spaces name :
  sanitize name = None <-> Forall (fun c => c = chr " ") name.
Proof.
  rewrite sanitize_None, strip_nil. unfold re_sub. rewrite Forall_fmap.
  apply Forall_iff. intros c. apply re_sub_space.
Qed.

Example sanitize_tab : sanitize [9%N] = Some (lit "_.txt").
Proof. vm_compute. reflexivity. Qed.

(** C3: the sanitizer either yields a non-empty name made of allowed
    characters only and ending in [.txt], or rejects; it rejects exactly when
    nothing is left of the name once the characters outside the allowed set
    are replaced by underscores and the surrounding whitespace is trimmed. *)
Theorem sanitize_total (name : str) :
  ((exists safe_name, sanitize name = Some safe_name /\ safe_name <> []
      /\ Forall in_allowed_set safe_name /\ lit ".txt" `suffix_of` safe_name)
   \/ sanitize name = None)
  /\ (sanitize name = None <-> strip (re_sub name) = []).
Proof.
  split; [|apply sanitize_None].
  destruct (sanitize name) as [safe_name|] eqn:E; [left | by right].
  exists safe_name. split; [done|]. by apply sanitize_Some with name.
Qed.

(** *** The order on strings *)

Lemma le_refl a : le a a = true.
Proof. induction a as [|x a IH]; simpl; [done|]. by rewrite N.ltb_irrefl. Qed.

Lemma le_total a b : le a b = true \/ le b a = true.
Proof.
  revert b. induction a as [|x a IH]; intros [|y b]; simpl; auto.
  destruct (N.ltb_spec x y), (N.ltb_spec y x); auto; lia.
Qed.

Lemma le_antisym a b : le a b = true -> le b a = true -> a = b.
Proof.
  revert b. induction a as [|x a IH]; intros [|y b]; simpl; try done.
  destruct (N.ltb_spec x y), (N.ltb_spec y x); try done; try lia.
  intros. f_equal; [lia | auto].
Qed.

Lemma le_trans a b c : le a b = true -> le b c = true -> le a c = true.
Proof.
  revert b c. induction a as [|x a IH]; intros [|y b] [|z c]; simpl; try done.
  destruct (N.ltb_spec x y), (N.ltb_spec y x), (N.ltb_spec y z), (N.ltb_spec z y),
    (N.ltb_spec x z), (N.ltb_spec z x); try done; try lia.
  apply IH.
Qed.

Lemma str_le_refl : Reflexive str_le.
Proof. intros a. apply le_refl. Qed.
Lemma str_le_trans : Transitive str_le.
Proof. intros a b c. apply le_trans. Qed.
Lemma str_le_antisym : AntiSymm (=) str_le.
Proof. intros a b. apply le_antisym. Qed.
Lemma str_le_total : Total str_le.
Proof. intros a b. apply le_total. Qed.

Lemma sorted_Sorted l : Sorted str_le (sorted l).
Proof. apply (Sorted_merge_sort str_le (Total0 := str_le_total)). Qed.

Lemma sorted_Permutation l : sorted l ≡ₚ l.
Proof. apply merge_sort_Permutation. Qed.

(** Sorting forgets the order the names came in. *)
Lemma sorted_proper l k : l ≡ₚ k -> sorted l = sorted k.
Proof.
  intros H.
  apply (Sorted_unique str_le (Transitive0 := str_le_trans)
           (AntiSymm0 := str_le_antisym)); try apply sorted_Sorted.
  by rewrite !sorted_Permutation.
Qed.

(** *** Paths *)

Lemma name_child (d : path) n : Path.name (d ++ [n]) = n.
Proof. unfold Path.name. by rewrite last_snoc. Qed.

Lemma parent_child (d : path) n : Path.parent (d ++ [n]) = d.
Proof. unfold Path.parent. apply removelast_last. Qed.

Lemma child_inv (p d : path) :
  p <> [] /\ Path.parent p = d <-> p = d ++ [Path.name p].
Proof.
  split.
  - intros [Hp <-]. destruct (exists_last Hp) as (q & n & ->).
    by rewrite name_child, parent_child.
  - intros ->. split; [by destruct d | apply parent_child].
Qed.

Lemma split_slash_plain s : chr "/" ∉ s -> Path.split_slash s = [s].
Proof.
  induction s as [|c s IH]; intros H; [done|].
  apply not_elem_of_cons in H as [H1 H2]. simpl. rewrite IH by done.
  destruct (N.eqb_spec c (chr "/")); congruence.
Qed.

Lemma truediv_child (d : path) s :
  s <> [] -> s <> lit "." -> chr "/" ∉ s -> Path.truediv d s = d ++ [s].
Proof.
  intros H1 H2 H3. unfold Path.truediv, Path.parts.
  rewrite split_slash_plain by done.
  destruct s as [|c s]; [done|].
  apply not_elem_of_cons in H3 as [H3 _].
  destruct (N.eqb_spec c (chr "/")); [congruence|].
  rewrite filter_cons_True by done. done.
Qed.

Lemma index_path (d : path) :
  Path.truediv d (lit "index.txt") = d ++ [lit "index.txt"].
Proof. reflexivity. Qed.

(** *** Suffix and stem *)

Lemma rfind_dot_Some s i :
  rfind_dot s = Some i ->
  exists a b, s = a ++ chr "." :: b /\ length a = i /\ chr "." ∉ b.
Proof.
  revert i. induction s as [|c s IH]; intros i; simpl; [done|].
  destruct (rfind_dot s) as [j|] eqn:E.
  - intros [= <-]. destruct (IH j eq_refl) as (a & b & -> & <- & Hb).
    by exists (c :: a), b.
  - destruct (N.eqb_spec c (chr ".")) as [->|]; [|done].
    intros [= <-]. exists [], s. split; [done|]. split; [done|].
    clear IH. induction s as [|x s IH]; [apply not_elem_of_nil|].
    simpl in E. destruct (rfind_dot s); [done|].
    destruct (N.eqb_spec x (chr ".")); [done|].
    apply not_elem_of_cons. auto.
Qed.

Lemma rfind_dot_None b : chr "." ∉ b -> rfind_dot b = None.
Proof.
  induction b as [|x b IH]; intros H; [done|].
  apply not_elem_of_cons in H as [H1 H2]. simpl. rewrite IH by done.
  destruct (N.eqb_spec x (chr ".")); congruence.
Qed.

Lemma rfind_dot_app a b :
  chr "." ∉ b -> rfind_dot (a ++ chr "." :: b) = Some (length a).
Proof.
  intros H. induction a as [|c a IH]; simpl.
  - rewrite rfind_dot_None by done. by rewrite ?N.eqb_refl.
  - by rewrite IH.
Qed.

Lemma lower_char_ascii c x l l' :
  lower_char c ++ l = x :: l' ->
  (x < 65)%N \/ (x = 116)%N \/ (x = 120)%N ->
  l' = l /\ (c = x \/ (c + 32 = x /\ 65 <= c)%N).
Proof.
  unfold lower_char. eval_chr.
  repeat case_match; simpl; intros Hl Hx; simplify_eq; char_facts;
    try (exfalso; lia); (split; [done | lia]).
Qed.

Lemma lower_nil e : lower e = [] -> e = [].
Proof.
  destruct e as [|c e]; [done|]. unfold lower. simpl.
  unfold lower_char. repeat case_match; done.
Qed.

Lemma lower_cons_ascii c e x l :
  lower (c :: e) = x :: l ->
  (x < 65)%N \/ (x = 116)%N \/ (x = 120)%N ->
  lower e = l /\ (c = x \/ (c + 32 = x /\ 65 <= c)%N).
Proof.
  intros H Hx. change (lower (c :: e)) with (lower_char c ++ lower e) in H.
  apply lower_char_ascii in H as [-> ?]; auto.
Qed.

Lemma lower_txt e : lower e = lit ".txt" <-> txt_variant e.
Proof.
  split.
  - vm_compute (lit ".txt"). unfold txt_variant. eval_chr.
    intros H.
    destruct e as [|c0 e]; [done|]. apply lower_cons_ascii in H as [H H0]; [|lia].
    destruct e as [|c1 e]; [done|]. apply lower_cons_ascii in H as [H H1]; [|lia].
    destruct e as [|c2 e]; [done|]. apply lower_cons_ascii in H as [H H2]; [|lia].
    destruct e as [|c3 e]; [done|]. apply lower_cons_ascii in H as [H H3]; [|lia].
    apply lower_nil in H as ->.
    exists c1, c2, c3. split; [f_equal; lia|]. lia.
  - intros (t & x & t' & -> & [-> | ->] & [-> | ->] & [-> | ->]); reflexivity.
Qed.

Lemma txt_variant_length e : txt_variant e -> length e = 4.
Proof. by intros (t & x & t' & -> & _). Qed.

Lemma txt_variant_dot e :
  txt_variant e -> exists b, e = chr "." :: b /\ (chr "." ∉ b) /\ length b = 3.
Proof.
  intros (t & x & t' & -> & Ht & Hx & Ht'). eexists. split; [done|]. split; [|done].
  eval_chr.
  rewrite !not_elem_of_cons. repeat split; try lia. apply not_elem_of_nil.
Qed.

(** *** The filter of the index builder *)

Lemma suffix_txt_inv (p : path) :
  lower (Path.suffix p) = lit ".txt" ->
  exists s e, Path.name p = s ++ e /\ s <> [] /\ txt_variant e
    /\ Path.stem p = s /\ Path.suffix p = e.
Proof.
  unfold Path.suffix, Path.stem, Path.split_point.
  destruct (rfind_dot (Path.name p)) as [i|] eqn:E; [|done].
  destruct (0 <? i) eqn:Hi; [|done]. destruct (i <? _) eqn:Hi'; [|done]. simpl.
  apply Nat.ltb_lt in Hi, Hi'. intros H%lower_txt.
  exists (take i (Path.name p)), (drop i (Path.name p)).
  rewrite take_drop. repeat split; try done.
  intros Hnil%(f_equal length). rewrite length_take in Hnil. simpl in Hnil. lia.
Qed.

Lemma suffix_txt_intro (p : path) s e :
  Path.name p = s ++ e -> s <> [] -> txt_variant e ->
  Path.suffix p = e /\ Path.stem p = s.
Proof.
  intros Hn Hs (b & -> & Hb & Hlen)%txt_variant_dot.
  unfold Path.suffix, Path.stem, Path.split_point. rewrite Hn.
  rewrite rfind_dot_app by done.
  assert (0 < length s) by (destruct s; [done | simpl; lia]).
  rewrite length_app. simpl length.
  destruct (Nat.ltb_spec 0 (length s)); [|lia].
  destruct (Nat.ltb_spec (length s) (length s + S (length b) - 1)); [|lia].
  simpl. by rewrite drop_app_length, take_app_length.
Qed.

Lemma has_entry_suffix_spec n :
  has_entry_suffix n <-> exists s e, n = s ++ e /\ s <> [] /\ txt_variant e.
Proof.
  unfold has_entry_suffix. split.
  - intros [Hlen H%lower_txt].
    exists (take (length n - 4) n), (drop (length n - 4) n).
    rewrite take_drop. repeat split; try done.
    intros Hnil%(f_equal length). rewrite length_take in Hnil. simpl in Hnil. lia.
  - intros (s & e & -> & Hs & He). pose proof (txt_variant_length _ He) as Hl.
    rewrite length_app, Hl.
    replace (length s + 4 - 4) with (length s) by lia.
    rewrite drop_app_length. split; [|by apply lower_txt].
    destruct s; [done | simpl; lia].
Qed.

Lemma strip_entry_suffix_app s e :
  txt_variant e -> strip_entry_suffix (s ++ e) = s.
Proof.
  intros Hl%txt_variant_length. unfold strip_entry_suffix.
  rewrite length_app, Hl. replace (length s + 4 - 4) with (length s) by lia.
  apply take_app_length.
Qed.

(** The filter of the source and the wording of the specification agree. *)
Lemma is_entry_spec fs (p : path) :
  is_entry fs p = true <->
  is_file fs p = true /\ has_entry_suffix (Path.name p)
    /\ Path.name p <> lit "index.txt".
Proof.
  unfold is_entry.
  rewrite !andb_true_iff, negb_true_iff, bool_decide_eq_true, bool_decide_eq_false.
  rewrite has_entry_suffix_spec. split.
  - intros [[Hf (s & e & Hn & Hs & He & _)%suffix_txt_inv] Hi]. eauto 10.
  - intros (Hf & (s & e & Hn & Hs & He) & Hi).
    destruct (suffix_txt_intro p s e) as [-> _]; try done.
    repeat split; try done. by apply lower_txt.
Qed.

Lemma is_entry_stem fs (p : path) :
  is_entry fs p = true -> Path.stem p = strip_entry_suffix (Path.name p).
Proof.
  intros (_ & (s & e & Hn & Hs & He)%has_entry_suffix_spec & _)%is_entry_spec.
  destruct (suffix_txt_intro p s e) as [_ ->]; try done.
  by rewrite Hn, strip_entry_suffix_app.
Qed.

(** *** Running the I/O primitives *)

Lemma os_call_run w r w' :
  os_call w = (r, w') -> files w' = files w /\ stdout w' = stdout w.
Proof.
  unfold os_call. destruct (pending w) as [|[e|] rest]; by intros [= <- <-].
Qed.

Lemma iterdir_run d w r w' :
  iterdir d w = (r, w') ->
  files w' = files w /\ stdout w' = stdout w
  /\ forall entries, r = Ok entries ->
       entries = children (files w) d /\ is_dir (files w) d = true.
Proof.
  unfold iterdir, bind, get_files, ret, raise.
  destruct (os_call w) as [[[]|e] w1] eqn:Hos; apply os_call_run in Hos as [Hf Hs].
  - rewrite Hf. destruct (is_dir (files w) d) eqn:Hd.
    + intros [= <- <-]. repeat split; try done; naive_solver.
    + destruct (files w !! d); intros [= <- <-]; repeat split; try done.
  - intros [= <- <-]. repeat split; try done.
Qed.

Lemma list_all_files_run d w r w' :
  list_all_files d w = (r, w') ->
  files w' = files w /\ stdout w' = stdout w
  /\ forall names, r = Ok names ->
       names = listing (files w) d /\ is_dir (files w) d = true.
Proof.
  unfold list_all_files, bind, get_files, ret.
  destruct (iterdir d w) as [[entries|e] w1] eqn:Hit;
    apply iterdir_run in Hit as (Hf & Hs & Hr).
  - intros [= <- <-]. destruct (Hr _ eq_refl) as [-> Hd].
    split; [done|]. split; [done|]. intros names [= <-]. split; [|done].
    unfold listing. by rewrite Hf.
  - intros [= <- <-]. repeat split; try done.
Qed.

Lemma open_w_run p w r w' :
  open_w p w = (r, w') ->
  stdout w' = stdout w
  /\ match r with
     | Ok _ => files w' = <[p := RegularFile []]> (files w)
               /\ is_dir (files w) p = false
     | Raise _ => files w' = files w
     end.
Proof.
  unfold open_w, bind, raise. destruct (path_error p); [by intros [= <- <-]|].
  destruct (os_call w) as [[[]|e] w1] eqn:Hos; apply os_call_run in Hos as [Hf Hs].
  - rewrite Hf. destruct (is_dir (files w) p) eqn:Hd; [by intros [= <- <-]|].
    destruct (is_dir (files w) (Path.parent p)).
    + destruct (name_too_long p); by intros [= <- <-].
    + destruct (files w !! Path.parent p); by intros [= <- <-].
  - by intros [= <- <-].
Qed.

Lemma write_close_run p content w r w' :
  write_close p content w = (r, w') ->
  stdout w' = stdout w
  /\ match r with
     | Ok _ => files w' = <[p := RegularFile content]> (files w)
     | Raise _ => files w' = files w
     end.
Proof.
  unfold write_close, bind, raise. destruct (encodable content); [|by intros [= <- <-]].
  destruct (os_call w) as [[[]|e] w1] eqn:Hos; apply os_call_run in Hos as [Hf Hs];
    intros [= <- <-]; [by rewrite Hf | done].
Qed.

(** A write that raises leaves the file as it was, or empty when the
    exception came once the file was open. *)
Lemma write_text_run p content w r w' :
  write_text p content w = (r, w') ->
  stdout w' = stdout w
  /\ match r with
     | Ok _ => files w' = <[p := RegularFile content]> (files w)
               /\ is_dir (files w) p = false
     | Raise _ => files w' = files w
                  \/ files w' = <[p := RegularFile []]> (files w)
     end.
Proof.
  unfold write_text, bind.
  destruct (open_w p w) as [[[]|e] w1] eqn:Ho; apply open_w_run in Ho as [Hs Ho].
  - destruct Ho as [Ho Hd]. intros [Hs' Hc]%write_close_run. split; [congruence|].
    destruct r.
    + rewrite Hc, Ho, insert_insert_eq. done.
    + right. congruence.
  - intros [= <- <-]. split; [done | by left].
Qed.

Lemma write_all_scene_names_run d w r w' :
  write_all_scene_names d w = (r, w') ->
  stdout w' = stdout w
  /\ match r with
     | Ok _ =>
         files w' =
           <[d ++ [lit "index.txt"] :=
               RegularFile (index_content (listing (files w) d))]> (files w)
         /\ is_dir (files w) d = true
     | Raise _ =>
         files w' = files w
         \/ files w' = <[d ++ [lit "index.txt"] := RegularFile []]> (files w)
     end.
Proof.
  unfold write_all_scene_names, bind. rewrite index_path.
  destruct (list_all_files d w) as [[names|e] w1] eqn:Hl;
    apply list_all_files_run in Hl as (Hf & Hs & Hr).
  - destruct (Hr _ eq_refl) as [-> Hd]. intros Hw.
    apply write_text_run in Hw as [Hs' Hw]. split; [congruence|].
    destruct r; [|by rewrite <- Hf]. destruct Hw as [-> _]. by rewrite Hf.
  - intros [= <- <-]. split; [done | by left].
Qed.

(** A scan that is carried out returns: the listing is there whenever the
    directory is. *)
Lemma list_all_files_returns d w :
  pending w = [] -> is_dir (files w) d = true ->
  list_all_files d w = (Ok (listing (files w) d), w).
Proof.
  intros Hp Hd. unfold list_all_files, iterdir, bind, os_call, get_files, ret.
  rewrite Hp. simpl. by rewrite Hd.
Qed.

(** *** The listing depends on the entries only *)

Lemma elem_of_children fs (d p : path) :
  p ∈ children fs d <-> is_Some (fs !! p) /\ p <> [] /\ Path.parent p = d.
Proof.
  unfold children. rewrite list_elem_of_filter, list_elem_of_fmap. split.
  - intros [H [[q nd] [-> Hq%elem_of_map_to_list]]]. split; [by eexists | done].
  - intros [[nd Hnd] H]. split; [done|]. exists (p, nd). split; [done|].
    by apply elem_of_map_to_list.
Qed.

Lemma NoDup_children fs (d : path) : NoDup (children fs d).
Proof. apply NoDup_filter, NoDup_fst_map_to_list. Qed.

Lemma is_file_Some fs (p : path) : is_file fs p = true -> is_Some (fs !! p).
Proof. unfold is_file. destruct (fs !! p); [by eexists | done]. Qed.

Lemma listing_ext fs1 fs2 (d : path) :
  (forall p, Path.name p <> lit "index.txt" -> is_file fs1 p = is_file fs2 p) ->
  listing fs1 d = listing fs2 d.
Proof.
  intros H. unfold listing. apply sorted_proper, fmap_Permutation.
  apply NoDup_Permutation; try apply NoDup_filter, NoDup_children.
  intros p. rewrite !list_elem_of_filter, !elem_of_children, !is_entry_spec.
  split; intros [(Hf & Hs & Hi) (_ & Hp)].
  - rewrite H in Hf by done. auto using is_file_Some.
  - rewrite <- H in Hf by done. auto using is_file_Some.
Qed.

Lemma listing_insert_index fs (d : path) nd :
  listing (<[d ++ [lit "index.txt"] := nd]> fs) d = listing fs d.
Proof.
  apply listing_ext. intros p Hp. unfold is_file.
  rewrite lookup_insert_ne; [done|]. intros <-. by rewrite name_child in Hp.
Qed.

(** *** The index builder against the wording of the specification *)

Lemma entries_spec_index fs (d : path) (l : list (path * node)) :
  (forall p nd, (p, nd) ∈ l -> fs !! p = Some nd) ->
  Path.stem <$> filter (fun p => is_entry fs p = true)
                  (filter (fun p => p <> [] /\ Path.parent p = d) (l.*1))
  = strip_entry_suffix
      <$> filter (fun n => has_entry_suffix n /\ n <> lit "index.txt")
            (omap (fun entry =>
                     match entry.2 with
                     | RegularFile _ =>
                         if decide (entry.1 <> [] /\ Path.parent entry.1 = d)
                         then Some (Path.name entry.1) else None
                     | Directory => None
                     end) l).
Proof.
  induction l as [|[p nd] l IH]; intros Hl; [done|].
  assert (fs !! p = Some nd) as Hp by (apply Hl; left).
  specialize (IH (fun q n H => Hl q n (list_elem_of_further _ _ _ H))).
  rewrite fmap_cons. simpl fst. simpl omap. simpl snd. rewrite filter_cons.
  destruct (decide (p <> [] /\ Path.parent p = d)) as [Hq|Hq].
  - rewrite filter_cons. destruct (decide (is_entry fs p = true)) as [He|He].
    + pose proof He as (Hf & Hs & Hi)%is_entry_spec.
      unfold is_file in Hf. rewrite Hp in Hf. destruct nd; [|done].
      simpl. rewrite filter_cons_True by done. rewrite fmap_cons.
      f_equal; [by apply is_entry_stem with fs | exact IH].
    + destruct nd as [c|]; [|exact IH]. simpl.
      rewrite filter_cons_False; [exact IH|]. intros [Hs Hi].
      apply He, is_entry_spec. unfold is_file. by rewrite Hp.
  - destruct nd; exact IH.
Qed.

Lemma listing_spec_index fs (d : path) :
  listing fs d = sorted (spec_index fs d).
Proof.
  unfold listing, spec_index, children, regular_files_in. f_equal.
  apply entries_spec_index. intros p nd. apply elem_of_map_to_list.
Qed.

(** C2: a scan that returns gives the names the specification describes,
    sorted: the stripped names of the regular files directly inside the
    directory whose name ends in [.txt] in any case and is not [index.txt]. *)
Theorem list_all_files_sorted_index base_dir w names w' :
  list_all_files base_dir w = (Ok names, w') ->
  Sorted str_le names /\ names ≡ₚ spec_index (files w) base_dir.
Proof.
  intros (_ & _ & Hr)%list_all_files_run. destruct (Hr _ eq_refl) as [-> _].
  rewrite listing_spec_index. split; [apply sorted_Sorted | apply sorted_Permutation].
Qed.

Lemma list_all_files_sorted_index_witness :
  list_all_files srv sample_dir = (Ok [lit "a"; lit "b"], sample_dir)
  /\ Sorted str_le [lit "a"; lit "b"]
  /\ [lit "a"; lit "b"] ≡ₚ spec_index (files sample_dir) srv.
Proof.
  assert (list_all_files srv sample_dir = (Ok [lit "a"; lit "b"], sample_dir))
    as H by (vm_compute; reflexivity).
  split; [exact H|].
  exact (list_all_files_sorted_index srv sample_dir _ sample_dir H).
Defined.

(** Which names a scan returns, file by file. *)
Lemma elem_of_listing fs (d : path) (s : str) :
  s ∈ listing fs d <->
  exists e content, lower e = lit ".txt" /\ s <> [] /\ s ++ e <> lit "index.txt"
    /\ fs !! (d ++ [s ++ e]) = Some (RegularFile content).
Proof.
  unfold listing. rewrite sorted_Permutation, list_elem_of_fmap. split.
  - intros (p & -> & [He [_ Hpd%child_inv]%elem_of_children]%list_elem_of_filter).
    pose proof (is_entry_stem _ _ He) as Hstem.
    apply is_entry_spec in He as (Hf & (s & e & Hn & Hs & He)%has_entry_suffix_spec & Hi).
    rewrite Hstem, Hn, strip_entry_suffix_app by done.
    unfold is_file in Hf. destruct (fs !! p) as [[c|]|] eqn:E; try done.
    exists e, c. rewrite <- Hn, <- Hpd. repeat split; try done. by apply lower_txt.
  - intros (e & c & He%lower_txt & Hs & Hi & Hf).
    exists (d ++ [s ++ e]). split.
    + destruct (suffix_txt_intro (d ++ [s ++ e]) s e) as [_ ->]; try done.
      apply name_child.
    + apply list_elem_of_filter. split.
      * apply is_entry_spec. rewrite name_child. unfold is_file. rewrite Hf.
        split; [done|]. split; [|done]. apply has_entry_suffix_spec. by exists s, e.
      * apply elem_of_children. split; [by eexists|]. apply child_inv.
        by rewrite name_child.
Qed.

(** C1: once a rebuild has completed, [index.txt] holds the names a scan of
    the directory returns, joined by line feeds, and one more line feed
    exactly when there are names. *)
Theorem index_after_rebuild base_dir w w' :
  write_all_scene_names base_dir w = (Ok tt, w') ->
  exists names trailing,
    list_all_files base_dir (World (files w') [] (stdout w'))
      = (Ok names, World (files w') [] (stdout w'))
    /\ files w' !! (base_dir ++ [lit "index.txt"])
       = Some (RegularFile (join LF names ++ trailing))
    /\ (names <> [] -> trailing = LF) /\ (names = [] -> trailing = []).
Proof.
  intros (_ & Hf & Hd)%write_all_scene_names_run.
  exists (listing (files w') base_dir),
    (match listing (files w') base_dir with [] => [] | _ => LF end).
  split; [|split].
  - apply (list_all_files_returns base_dir (World (files w') [] (stdout w')));
      [done|]. simpl. rewrite Hf.
    unfold is_dir in *. destruct base_dir as [|c d]; [done|].
    rewrite lookup_insert_ne; [done|].
    intros H%(f_equal length). rewrite length_app in H. simpl in H. lia.
  - rewrite Hf at 1. rewrite lookup_insert_eq. rewrite Hf, listing_insert_index. done.
  - by destruct (listing (files w') base_dir).
Qed.

Lemma index_after_rebuild_witness :
  let w' := snd (write_all_scene_names srv sample_dir) in
  write_all_scene_names srv sample_dir = (Ok tt, w')
  /\ exists names trailing,
       list_all_files srv (World (files w') [] (stdout w'))
         = (Ok names, World (files w') [] (stdout w'))
       /\ files w' !! (srv ++ [lit "index.txt"])
          = Some (RegularFile (join LF names ++ trailing))
       /\ (names <> [] -> trailing = LF) /\ (names = [] -> trailing = []).
Proof.
  intros w'.
  assert (write_all_scene_names srv sample_dir = (Ok tt, w')) as H
    by (vm_compute; reflexivity).
  split; [exact H|]. exact (index_after_rebuild srv sample_dir w' H).
Defined.

(** *** The store *)

Lemma sanitize_child (d : path) name safe_name :
  sanitize name = Some safe_name -> Path.truediv d safe_name = d ++ [safe_name].
Proof.
  intros (Hne & Hall & Hsuf)%sanitize_Some.
  apply truediv_child; [done| |by apply allowed_no_separator].
  intros ->. destruct Hsuf as [k Hk]. apply (f_equal length) in Hk.
  rewrite length_app in Hk. change (length (lit ".")) with 1 in Hk.
  change (length (lit ".txt")) with 4 in Hk. lia.
Qed.

(** What a store leaves behind: on 200 the entry and the index; on 500 the
    files as they were, or the entry emptied or written, and in the latter
    case possibly the index emptied. *)
Lemma store_entry_run d safe_name contents w r w' :
  store_entry d safe_name contents w = (r, w') ->
  exists resp, r = Ok resp /\
  let target := Path.truediv d safe_name in
  let entry := <[target := RegularFile contents]> (files w) in
  (status resp = 200%Z /\ resp = Response 200 (ReplyFile (Path.name target))
   /\ files w' = <[d ++ [lit "index.txt"] :=
                    RegularFile (index_content (listing entry d))]> entry)
  \/ (exists e, resp = Response 500 (ReplyError [StrOf e])
      /\ (files w' = files w
          \/ files w' = <[target := RegularFile []]> (files w)
          \/ files w' = entry
          \/ files w' = <[d ++ [lit "index.txt"] := RegularFile []]> entry)).
Proof.
  unfold store_entry, attempt, bind, ret.
  destruct (write_text _ contents w) as [[[]|e] w1] eqn:Hw;
    apply write_text_run in Hw as [_ Hw].
  - destruct Hw as [Hw _].
    destruct (write_all_scene_names d w1) as [[[]|e] w2] eqn:Hr;
      apply write_all_scene_names_run in Hr as [_ Hr];
      intros [= <- <-]; eexists; (split; [done|]); simpl.
    + destruct Hr as [Hr _]. left. rewrite Hr, Hw. done.
    + right. exists e. split; [done|]. rewrite <- Hw.
      destruct Hr as [-> | ->]; auto.
  - intros [= <- <-]. eexists. split; [done|]. right. exists e. split; [done|].
    destruct Hw as [-> | ->]; auto.
Qed.

(** C5, as the code has it: when the entry is written and the rebuild that
    follows raises, the reply is the 500 failure carrying the exception, and
    the entry file stays on disk with the contents just written, provided
    the entry is not [index.txt] itself. *)
Theorem store_partial_failure base_dir name contents safe_name w w1 e w2 :
  sanitize name = Some safe_name -> safe_name <> lit "index.txt" ->
  write_text (Path.truediv base_dir safe_name) contents w = (Ok tt, w1) ->
  write_all_scene_names base_dir w1 = (Raise e, w2) ->
  store base_dir name contents w = (Ok (Response 500 (ReplyError [StrOf e])), w2)
  /\ files w2 !! Path.truediv base_dir safe_name = Some (RegularFile contents).
Proof.
  intros Hs Hne Hw Hr. split.
  - unfold store, store_entry, attempt, bind, ret. by rewrite Hs, Hw, Hr.
  - apply write_text_run in Hw as [_ [Hw _]].
    apply write_all_scene_names_run in Hr as [_ Hr].
    rewrite (sanitize_child _ _ _ Hs).
    assert (files w1 !! (base_dir ++ [safe_name]) = Some (RegularFile contents))
      as H1 by (by rewrite Hw, (sanitize_child _ _ _ Hs), lookup_insert_eq).
    destruct Hr as [-> | ->]; [done|].
    rewrite lookup_insert_ne; [done|]. apply not_eq_sym.
    intros Heq%app_inv_head. congruence.
Qed.

Lemma store_partial_failure_witness :
  let fs := <[srv ++ [lit "index.txt"] := Directory]> {[srv := Directory]} in
  let w := World fs [] [] in
  let w1 := World (<[srv ++ [lit "a.txt"] := RegularFile (lit "x")]> fs) [] [] in
  let e := IsADirectoryError (srv ++ [lit "index.txt"]) in
  (sanitize (lit "a") = Some (lit "a.txt") /\ lit "a.txt" <> lit "index.txt"
   /\ write_text (Path.truediv srv (lit "a.txt")) (lit "x") w = (Ok tt, w1)
   /\ write_all_scene_names srv w1 = (Raise e, w1))
  /\ store srv (lit "a") (lit "x") w = (Ok (Response 500 (ReplyError [StrOf e])), w1)
  /\ files w1 !! Path.truediv srv (lit "a.txt") = Some (RegularFile (lit "x")).
Proof.
  intros fs w w1 e.
  assert (sanitize (lit "a") = Some (lit "a.txt")) as H1 by (vm_compute; reflexivity).
  assert (lit "a.txt" <> lit "index.txt") as H0 by (vm_compute; discriminate).
  assert (write_text (Path.truediv srv (lit "a.txt")) (lit "x") w = (Ok tt, w1))
    as H2 by (vm_compute; reflexivity).
  assert (write_all_scene_names srv w1 = (Raise e, w1))
    as H3 by (vm_compute; reflexivity).
  split; [exact (conj H1 (conj H0 (conj H2 H3)))|].
  exact (store_partial_failure _ _ _ _ _ _ _ _ H1 H0 H2 H3).
Defined.

(** When the entry is [index.txt] itself, the rebuild that raises after it
    has opened the index leaves the entry empty: what the client sent is
    lost. So it is when the system fails while the index is written, and so
    it is, with no fault at all, when the directory holds a name that cannot
    be encoded. *)
Lemma store_index_entry_lost :
  let index := Path.truediv srv (lit "index.txt") in
  (let e := OSError 5 (lit "Input/output error") in
   let fs := <[srv ++ [lit "a.txt"] := RegularFile (lit "first")]> {[srv := Directory]} in
   let w := World fs [None; None; None; None; Some e] [] in
   let w1 := snd (write_text index (lit "x") w) in
   let w2 := snd (write_all_scene_names srv w1) in
   sanitize (lit "index") = Some (lit "index.txt")
   /\ write_text index (lit "x") w = (Ok tt, w1)
   /\ write_all_scene_names srv w1 = (Raise e, w2)
   /\ store srv (lit "index") (lit "x") w
      = (Ok (Response 500 (ReplyError [StrOf e])), w2)
   /\ files w2 !! index = Some (RegularFile [])
   /\ files w2 !! index <> Some (RegularFile (lit "x")))
  /\ (let fs : gmap path node :=
        <[srv ++ [[56575%N] ++ lit ".txt"] := RegularFile []]> {[srv := Directory]} in
      let e := UnicodeEncodeError (index_content (listing fs srv)) in
      let w := World fs [] [] in
      let w1 := snd (write_text index (lit "x") w) in
      let w2 := snd (write_all_scene_names srv w1) in
      write_text index (lit "x") w = (Ok tt, w1)
      /\ write_all_scene_names srv w1 = (Raise e, w2)
      /\ store srv (lit "index") (lit "x") w
         = (Ok (Response 500 (ReplyError [StrOf e])), w2)
      /\ files w2 !! index = Some (RegularFile [])
      /\ files w2 !! index <> Some (RegularFile (lit "x"))).
Proof.
  intros index. split.
  - intros e fs w w1 w2.
    split; [vm_compute; reflexivity|].
    split; [vm_compute; reflexivity|].
    split; [vm_compute; reflexivity|].
    split; [vm_compute; reflexivity|].
    split; [vm_compute; reflexivity|].
    vm_compute. discriminate.
  - intros fs e w w1 w2.
    split; [vm_compute; reflexivity|].
    split; [vm_compute; reflexivity|].
    split; [vm_compute; reflexivity|].
    split; [vm_compute; reflexivity|].
    vm_compute. discriminate.
Qed.

(** *** Storing again *)

Lemma index_ne_child (d : path) (n : str) :
  n <> lit "index.txt" -> d ++ [n] <> d ++ [lit "index.txt"].
Proof. intros Hn H. apply app_inv_head in H. congruence. Qed.

Lemma listing_insert_again fs (d t : path) c c' nd :
  listing (<[t := RegularFile c]> (<[d ++ [lit "index.txt"] := nd]>
             (<[t := RegularFile c']> fs))) d
  = listing (<[t := RegularFile c']> fs) d.
Proof.
  apply listing_ext. intros p Hp. unfold is_file.
  destruct (decide (p = t)) as [->|Hpt].
  - by rewrite !lookup_insert_eq.
  - rewrite lookup_insert_ne by done. rewrite lookup_insert_ne; [done|].
    intros <-. by rewrite name_child in Hp.
Qed.

Lemma store_ok d name contents w resp w' :
  store d name contents w = (Ok resp, w') -> status resp = 200%Z ->
  exists safe_name, sanitize name = Some safe_name /\
    files w' =
      <[d ++ [lit "index.txt"] :=
          RegularFile (index_content
                         (listing (<[d ++ [safe_name] := RegularFile contents]> (files w)) d))]>
        (<[d ++ [safe_name] := RegularFile contents]> (files w)).
Proof.
  unfold store. destruct (sanitize name) as [safe_name|] eqn:Hs.
  - intros Hrun Hst. exists safe_name. split; [done|].
    apply store_entry_run in Hrun as (resp' & [= <-] & H).
    rewrite (sanitize_child _ _ _ Hs) in H. simpl in H.
    destruct H as [(_ & _ & H)|(e & -> & _)]; done.
  - unfold ret. by intros [= <- <-].
Qed.

(** C6, as the code has it: a second store of the same pair changes no file,
    and a store over an earlier one leaves exactly the new contents in the
    entry file, provided the entry is not [index.txt] itself. *)
Theorem store_again base_dir name safe_name c1 c2 w r1 w1 r2 w2 :
  sanitize name = Some safe_name ->
  store base_dir name c1 w = (Ok r1, w1) -> status r1 = 200%Z ->
  store base_dir name c2 w1 = (Ok r2, w2) -> status r2 = 200%Z ->
  (c1 = c2 -> files w2 = files w1)
  /\ (safe_name <> lit "index.txt" ->
      files w2 !! (base_dir ++ [safe_name]) = Some (RegularFile c2)).
Proof.
  intros Hs H1 Hst1 H2 Hst2.
  apply store_ok in H1 as (s1 & Hs1 & Hw1); [|done].
  apply store_ok in H2 as (s2 & Hs2 & Hw2); [|done].
  assert (s1 = safe_name) as -> by congruence.
  assert (s2 = safe_name) as -> by congruence. split.
  - intros <-. rewrite Hw2, Hw1. rewrite listing_insert_again.
    set (content := RegularFile (index_content _)).
    apply map_eq. intros p. rewrite !lookup_insert.
    repeat case_decide; congruence.
  - intros Hn. rewrite Hw2. rewrite lookup_insert_ne, lookup_insert_eq; [done|].
    apply not_eq_sym. by apply index_ne_child.
Qed.

Lemma store_again_witness :
  let r := Response 200 (ReplyFile (lit "a.txt")) in
  let w1 := snd (store srv (lit "a") (lit "x") empty_dir) in
  (sanitize (lit "a") = Some (lit "a.txt")
   /\ store srv (lit "a") (lit "x") empty_dir = (Ok r, w1) /\ status r = 200%Z
   /\ store srv (lit "a") (lit "x") w1 = (Ok r, w1))
  /\ files w1 = files w1
  /\ files w1 !! (srv ++ [lit "a.txt"]) = Some (RegularFile (lit "x")).
Proof.
  intros r w1.
  assert (sanitize (lit "a") = Some (lit "a.txt")) as H0 by (vm_compute; reflexivity).
  assert (store srv (lit "a") (lit "x") empty_dir = (Ok r, w1)) as H1
    by (vm_compute; reflexivity).
  assert (status r = 200%Z) as H2 by reflexivity.
  assert (store srv (lit "a") (lit "x") w1 = (Ok r, w1)) as H3
    by (vm_compute; reflexivity).
  split; [exact (conj H0 (conj H1 (conj H2 H3)))|].
  destruct (store_again srv (lit "a") (lit "a.txt") (lit "x") (lit "x")
              empty_dir r w1 r w1 H0 H1 H2 H3 H2) as [Ha Hb].
  split; [exact (Ha eq_refl) | apply Hb].
  vm_compute. discriminate.
Defined.

(** The entry [index.txt] does not keep what a client stores in it: the
    rebuild that closes the store writes the index over it. *)
Lemma store_index_overwritten :
  let r := Response 200 (ReplyFile (lit "index.txt")) in
  let w1 := snd (store srv (lit "index") (lit "a") empty_dir) in
  let w2 := snd (store srv (lit "index") (lit "b") w1) in
  sanitize (lit "index") = Some (lit "index.txt")
  /\ store srv (lit "index") (lit "a") empty_dir = (Ok r, w1)
  /\ store srv (lit "index") (lit "b") w1 = (Ok r, w2)
  /\ files w2 !! (srv ++ [lit "index.txt"]) = Some (RegularFile [])
  /\ files w2 !! (srv ++ [lit "index.txt"]) <> Some (RegularFile (lit "b")).
Proof.
  intros r w1 w2.
  split; [vm_compute; reflexivity|].
  split; [vm_compute; reflexivity|].
  split; [vm_compute; reflexivity|].
  split; [vm_compute; reflexivity|].
  vm_compute. discriminate.
Qed.

(** C7: the sanitizer on the names the specification lists. *)
Theorem sanitize_cases :
  sanitize (lit "a/b") = Some (lit "a_b.txt")
  /\ sanitize (lit "  ") = None
  /\ sanitize (lit "data.txt") = Some (lit "data.txt")
  /\ sanitize (lit "data.TXT") = Some (lit "data.TXT.txt")
  /\ sanitize (lit "../../etc/passwd") = Some (lit ".._.._etc_passwd.txt").
Proof. repeat split; vm_compute; reflexivity. Qed.

(** C8: the file a store writes is the directory joined with the sanitized
    name, a name without separators, so that the only paths a store changes
    are that entry and the index, both directly inside the directory. *)
Theorem store_inside_directory base_dir name contents safe_name w r w' :
  sanitize name = Some safe_name ->
  store base_dir name contents w = (r, w') ->
  Path.truediv base_dir safe_name = base_dir ++ [safe_name]
  /\ Path.parent (Path.truediv base_dir safe_name) = base_dir
  /\ (chr "/" ∉ safe_name) /\ (chr "\" ∉ safe_name)
  /\ forall p, files w' !! p <> files w !! p ->
       p = base_dir ++ [safe_name] \/ p = base_dir ++ [lit "index.txt"].
Proof.
  intros Hs Hrun. pose proof (sanitize_child base_dir _ _ Hs) as Ht.
  pose proof (sanitize_Some _ _ Hs) as (_ & Hall & _).
  destruct (allowed_no_separator _ Hall) as [H1 H2].
  rewrite Ht, parent_child. repeat split; try done.
  intros p Hp. unfold store in Hrun. rewrite Hs in Hrun.
  apply store_entry_run in Hrun as (resp & _ & H). rewrite Ht in H. simpl in H.
  destruct (decide (p = base_dir ++ [safe_name])); [by left|].
  destruct (decide (p = base_dir ++ [lit "index.txt"])); [by right|].
  exfalso. apply Hp.
  destruct H as [(_ & _ & ->)|(e & _ & [-> | [-> | [-> | ->]]])];
    by rewrite ?lookup_insert_ne.
Qed.

Lemma store_inside_directory_witness :
  let name := lit "../../etc/passwd" in
  let safe_name := lit ".._.._etc_passwd.txt" in
  let run := store srv name (lit "x") empty_dir in
  (sanitize name = Some safe_name /\ run = (fst run, snd run))
  /\ Path.truediv srv safe_name = srv ++ [safe_name]
  /\ Path.parent (Path.truediv srv safe_name) = srv
  /\ (chr "/" ∉ safe_name) /\ (chr "\" ∉ safe_name)
  /\ forall p, files (snd run) !! p <> files empty_dir !! p ->
       p = srv ++ [safe_name] \/ p = srv ++ [lit "index.txt"].
Proof.
  intros name safe_name run.
  assert (sanitize name = Some safe_name) as H0 by (vm_compute; reflexivity).
  assert (run = (fst run, snd run)) as H1 by (vm_compute; reflexivity).
  split; [exact (conj H0 H1)|].
  exact (store_inside_directory srv name (lit "x") safe_name empty_dir _ _ H0 H1).
Defined.

(** *** The maintainer loop *)

Lemma maintain_once_raise d w e w1 :
  write_all_scene_names d w = (Raise e, w1) ->
  maintain_once d w
  = (Ok tt, World (files w1) (pending w1)
              (stdout w1 ++ [[Literal (lit "Warning: invariant update failed: "); StrOf e]])).
Proof. intros H. unfold maintain_once, attempt, bind, print. by rewrite H. Qed.

Lemma maintain_once_ok d w w1 :
  write_all_scene_names d w = (Ok tt, w1) -> maintain_once d w = (Ok tt, w1).
Proof. intros H. unfold maintain_once, attempt, bind, ret. by rewrite H. Qed.

(** One turn of the loop never raises. *)
Lemma maintain_once_total d w : exists w', maintain_once d w = (Ok tt, w').
Proof.
  destruct (write_all_scene_names d w) as [[[]|e] w1] eqn:H.
  - eexists. by apply maintain_once_ok.
  - eexists. by apply maintain_once_raise.
Qed.

(** A turn passes the loop on: the body has caught what the rebuild raised. *)
Lemma loop_turn d later w :
  exists w', maintain_once d w = (Ok tt, w')
    /\ _invariant_loop d (false :: later) w = _invariant_loop d later w'.
Proof.
  destruct (maintain_once_total d w) as [w' H]. exists w'. split; [done|].
  simpl. by rewrite H.
Qed.

Lemma loop_never_dies d stop_event w e w' :
  _invariant_loop d stop_event w <> Died e w'.
Proof.
  revert w. induction stop_event as [|[] later IH]; intros w; try done.
  destruct (loop_turn d later w) as (w1 & _ & ->). apply IH.
Qed.

Lemma loop_exits_iff d stop_event w :
  (exists w', _invariant_loop d stop_event w = Exited w') <-> true ∈ stop_event.
Proof.
  revert w. induction stop_event as [|[] later IH]; intros w.
  - split; [by intros [w' ?] | by intros ?%elem_of_nil].
  - split; [intros _; left | by exists w].
  - destruct (loop_turn d later w) as (w1 & _ & ->).
    rewrite IH, elem_of_cons. split; [by right | by intros [?|?]].
Qed.

(** C9: a rebuild that raises is caught and printed as a warning, and the loop
    goes on with the next turn; no exception ends the loop, whatever the
    faults; the loop is left if and only if the stop event is seen set. *)
Theorem loop_survives_failures base_dir stop_event w :
  (forall e w1,
      write_all_scene_names base_dir w = (Raise e, w1) ->
      _invariant_loop base_dir (false :: stop_event) w
      = _invariant_loop base_dir stop_event
          (World (files w1) (pending w1)
             (stdout w1
              ++ [[Literal (lit "Warning: invariant update failed: "); StrOf e]])))
  /\ (forall e w', _invariant_loop base_dir stop_event w <> Died e w')
  /\ ((exists w', _invariant_loop base_dir stop_event w = Exited w')
      <-> true ∈ stop_event).
Proof.
  split; [|split; [intros e w'; apply loop_never_dies | apply loop_exits_iff]].
  intros e w1 H. simpl. by rewrite (maintain_once_raise _ _ _ _ H).
Qed.

Lemma loop_survives_failures_witness :
  let e := FileNotFoundError srv in
  let warning := [Literal (lit "Warning: invariant update failed: "); StrOf e] in
  write_all_scene_names srv no_dir = (Raise e, no_dir)
  /\ _invariant_loop srv [false; false; true] no_dir
     = Exited (World ∅ [] [warning; warning])
  /\ _invariant_loop srv [false; false] no_dir
     = Running (World ∅ [] [warning; warning]).
Proof.
  intros e warning.
  assert (write_all_scene_names srv no_dir = (Raise e, no_dir)) as H
    by (vm_compute; reflexivity).
  split; [exact H|].
  destruct (loop_survives_failures srv [false; true] no_dir) as [Hstep _].
  rewrite (Hstep e no_dir H). split; vm_compute; reflexivity.
Defined.

(** *** The handler *)

Lemma body_length_bad {lib : Library} req :
  bad_content_length (content_length req) -> (body_length req <= 0)%Z.
Proof.
  unfold body_length. intros [->|[->|[(s & -> & Hs)|(s & n & -> & Hs & Hn)]]]; simpl.
  - by rewrite py_int_zero.
  - by rewrite py_int_zero.
  - destruct s; [by rewrite py_int_zero | by rewrite Hs].
  - destruct s; [by rewrite py_int_zero | by rewrite Hs].
Qed.

(** C10: a request whose [Content-Length] is missing, empty, not a number or
    not positive is read as an empty body and answered 400, "Invalid JSON
    body"; nothing is raised and nothing is written. *)
Theorem do_POST_bad_content_length {lib : Library} base_dir req w :
  bad_content_length (content_length req) ->
  do_POST base_dir req w
  = (Ok (Response 400 (ReplyError [Literal (lit "Invalid JSON body")])), w).
Proof.
  intros Hbad%body_length_bad. unfold do_POST.
  destruct (Z.ltb_spec 0 (body_length req)); [lia|].
  by rewrite json_loads_empty.
Qed.

Lemma do_POST_bad_content_length_witness :
  let req := Request (Some (lit "abc")) [] in
  bad_content_length (lib := plain_library) (content_length req)
  /\ do_POST (lib := plain_library) srv req empty_dir
     = (Ok (Response 400 (ReplyError [Literal (lit "Invalid JSON body")])), empty_dir).
Proof.
  intros req.
  assert (bad_content_length (lib := plain_library) (content_length req)) as H.
  { right. right. left. exists (lit "abc"). split; reflexivity. }
  split; [exact H|].
  exact (do_POST_bad_content_length (lib := plain_library) srv req empty_dir H).
Defined.

Lemma store_returns d name contents w :
  exists resp w', store d name contents w = (Ok resp, w')
    /\ (status resp = 400%Z <-> sanitize name = None).
Proof.
  unfold store. destruct (sanitize name) as [safe_name|] eqn:Hs.
  - destruct (store_entry d safe_name contents w) as [r w'] eqn:Hrun.
    pose proof Hrun as (resp & -> & H)%store_entry_run. exists resp, w'.
    split; [done|]. simpl in H.
    destruct H as [(-> & _)|(e & -> & _)]; simpl; split; done.
  - eexists _, w. split; [done|]. done.
Qed.

(** C4, as the code has it: a payload that has both fields is never turned
    down for the JSON type of their values; each value is replaced by its
    [str] and stored as that string, and the reply is 400 only when the name
    so obtained sanitizes to nothing. *)
Theorem payload_values_coerced {lib : Library} base_dir members file_name file_contents w :
  dict_get (lit "FileName") members = Some file_name ->
  dict_get (lit "Contents") members = Some file_contents ->
  handle_payload base_dir (JDict members) w
  = store base_dir (py_str file_name) (py_str file_contents) w
  /\ exists resp w',
       handle_payload base_dir (JDict members) w = (Ok resp, w')
       /\ (status resp = 400%Z <-> sanitize (py_str file_name) = None).
Proof.
  intros H1 H2. unfold handle_payload. rewrite H1, H2. split; [done|].
  apply store_returns.
Qed.

Lemma payload_values_coerced_witness :
  let members := [(lit "FileName", JInt 123); (lit "Contents", JBool true)] in
  (dict_get (lit "FileName") members = Some (JInt 123)
   /\ dict_get (lit "Contents") members = Some (JBool true))
  /\ handle_payload (lib := plain_library) srv (JDict members) empty_dir
     = store srv (lit "123") (lit "True") empty_dir.
Proof.
  intros members.
  assert (dict_get (lit "FileName") members = Some (JInt 123)) as H1
    by (vm_compute; reflexivity).
  assert (dict_get (lit "Contents") members = Some (JBool true)) as H2
    by (vm_compute; reflexivity).
  split; [exact (conj H1 H2)|].
  exact (proj1 (payload_values_coerced (lib := plain_library) srv members _ _
                  empty_dir H1 H2)).
Defined.

(** A body whose [FileName] is a number and whose [Contents] is a boolean is
    stored, not turned down: the reply is 200 and [123.txt] holds [True]. *)
Lemma non_string_values_accepted :
  let req := Request (Some (lit "35")) numbered_body in
  let run := do_POST (lib := plain_library) srv req empty_dir in
  json_loads (Library := plain_library) (rfile req) = Some numbered_payload
  /\ fst run = Ok (Response 200 (ReplyFile (lit "123.txt")))
  /\ files (snd run) !! (srv ++ [lit "123.txt"]) = Some (RegularFile (lit "True")).
Proof. intros req run. repeat split; vm_compute; reflexivity. Qed.

(** * Further properties *)

(** ** Further properties of the index builder *)

(** X1: the names a scan returns, file by file. *)
Theorem list_all_files_elem base_dir w names w' (s : str) :
  list_all_files base_dir w = (Ok names, w') ->
  s ∈ names <->
  exists e content,
    txt_variant e /\ s <> [] /\ s ++ e <> lit "index.txt"
    /\ files w !! (base_dir ++ [s ++ e]) = Some (RegularFile content).
Proof.
  intros (_ & _ & Hr)%list_all_files_run. destruct (Hr _ eq_refl) as [-> _].
  rewrite elem_of_listing. by setoid_rewrite lower_txt.
Qed.

Lemma list_all_files_elem_witness :
  list_all_files srv sample_dir = (Ok [lit "a"; lit "b"], sample_dir)
  /\ (lit "b" ∈ [lit "a"; lit "b"] <->
      exists e content,
        txt_variant e /\ lit "b" <> [] /\ lit "b" ++ e <> lit "index.txt"
        /\ files sample_dir !! (srv ++ [lit "b" ++ e]) = Some (RegularFile content)).
Proof.
  assert (list_all_files srv sample_dir = (Ok [lit "a"; lit "b"], sample_dir))
    as H by (vm_compute; reflexivity).
  split; [exact H|].
  exact (list_all_files_elem srv sample_dir _ sample_dir (lit "b") H).
Defined.



Lemma is_entry_child fs (d : path) s e content :
  txt_variant e -> s <> [] -> s ++ e <> lit "index.txt" ->
  fs !! (d ++ [s ++ e]) = Some (RegularFile content) ->
  d ++ [s ++ e] ∈ filter (fun p => is_entry fs p = true) (children fs d)
  /\ Path.stem (d ++ [s ++ e]) = s.
Proof.
  intros He Hs Hi Hf. split.
  - apply list_elem_of_filter. split.
    + apply is_entry_spec. rewrite name_child. unfold is_file. rewrite Hf.
      split; [done|]. split; [|done]. apply has_entry_suffix_spec. by exists s, e.
    + apply elem_of_children. split; [by eexists|]. apply child_inv.
      by rewrite name_child.
  - destruct (suffix_txt_intro (d ++ [s ++ e]) s e) as [_ ->]; try done.
    apply name_child.
Qed.

(** X3: no name is dropped as a duplicate: two entries whose names differ in
    the case of the suffix only put their common name into the result
    twice. *)
Theorem list_all_files_twins base_dir w names w' (s e1 e2 c1 c2 : str) :
  list_all_files base_dir w = (Ok names, w') ->
  txt_variant e1 -> txt_variant e2 -> e1 <> e2 -> s <> [] ->
  s ++ e1 <> lit "index.txt" -> s ++ e2 <> lit "index.txt" ->
  files w !! (base_dir ++ [s ++ e1]) = Some (RegularFile c1) ->
  files w !! (base_dir ++ [s ++ e2]) = Some (RegularFile c2) ->
  [s; s] ⊆+ names.
Proof.
  intros (_ & _ & Hr)%list_all_files_run He1 He2 Hne Hs Hi1 Hi2 Hf1 Hf2.
  destruct (Hr _ eq_refl) as [-> _]. unfold listing. rewrite sorted_Permutation.
  destruct (is_entry_child _ base_dir _ _ _ He1 Hs Hi1 Hf1) as [Hin1 Hst1].
  destruct (is_entry_child _ base_dir _ _ _ He2 Hs Hi2 Hf2) as [Hin2 Hst2].
  replace [s; s]
    with (Path.stem <$> [base_dir ++ [s ++ e1]; base_dir ++ [s ++ e2]])
    by (rewrite !fmap_cons, Hst1, Hst2; done).
  apply fmap_submseteq.
  apply NoDup_submseteq.
  - apply NoDup_cons. split; [|apply NoDup_singleton].
    intros Heq%list_elem_of_singleton. apply app_inv_head in Heq.
    injection Heq as Heq. by apply app_inv_head in Heq.
  - intros p [->|[->|[]%elem_of_nil]%elem_of_cons]%elem_of_cons; done.
Qed.

Lemma list_all_files_twins_witness :
  list_all_files srv twins_dir = (Ok [lit "a"; lit "a"], twins_dir)
  /\ [lit "a"; lit "a"] ⊆+ [lit "a"; lit "a"].
Proof.
  assert (list_all_files srv twins_dir = (Ok [lit "a"; lit "a"], twins_dir))
    as H by (vm_compute; reflexivity).
  split; [exact H|].
  refine (list_all_files_twins srv twins_dir _ twins_dir (lit "a") (lit ".txt")
            (lit ".TXT") (lit "first") (lit "second") H _ _ _ _ _ _ _ _).
  - apply lower_txt. vm_compute. reflexivity.
  - apply lower_txt. vm_compute. reflexivity.
  - vm_compute. discriminate.
  - vm_compute. discriminate.
  - vm_compute. discriminate.
  - vm_compute. discriminate.
  - vm_compute. reflexivity.
  - vm_compute. reflexivity.
Defined.

(** ** Further properties of the rebuild *)





(** *** Writes when no fault is pending *)









(** ** Further properties of the sanitizer *)

Lemma re_sub_id s : Forall in_allowed_set s -> re_sub s = s.
Proof.
  unfold re_sub. induction 1 as [|c s Hc _ IH]; [done|].
  rewrite fmap_cons, IH. apply allowed_spec in Hc. by rewrite Hc.
Qed.

Lemma lstrip_head s c rest : lstrip s = c :: rest -> isspace c = false.
Proof.
  induction s as [|x s IH]; simpl; [done|].
  destruct (isspace x) eqn:E; [done|]. by intros [= <- _].
Qed.

Lemma lstrip_fixed c rest : isspace c = false -> lstrip (c :: rest) = c :: rest.
Proof. intros H. simpl. by rewrite H. Qed.

Lemma rstrip_last s front c : rstrip s = front ++ [c] -> isspace c = false.
Proof.
  unfold rstrip. intros H. apply (f_equal (@rev N)) in H.
  rewrite rev_involutive, rev_unit in H. by apply lstrip_head in H.
Qed.

Lemma rstrip_fixed front c : isspace c = false -> rstrip (front ++ [c]) = front ++ [c].
Proof.
  intros H. unfold rstrip. rewrite rev_unit, lstrip_fixed by done.
  by rewrite <- rev_unit, rev_involutive.
Qed.

Lemma rstrip_prefix s : rstrip s `prefix_of` s.
Proof.
  unfold rstrip. destruct (lstrip_suffix (rev s)) as [k Hk].
  exists (rev k). rewrite <- rev_app_distr, <- Hk. by rewrite rev_involutive.
Qed.

Lemma strip_head s c rest : strip s = c :: rest -> isspace c = false.
Proof.
  unfold strip. intros H. destruct (rstrip_prefix (lstrip s)) as [k Hk].
  rewrite H in Hk. by apply lstrip_head in Hk.
Qed.

(** A string that neither starts nor ends with whitespace is its own
    trimming. *)
Lemma strip_fixed c middle front d :
  isspace c = false -> isspace d = false ->
  c :: middle = front ++ [d] -> strip (c :: middle) = c :: middle.
Proof.
  intros Hc Hd Heq. unfold strip. rewrite lstrip_fixed by done.
  rewrite Heq. by apply rstrip_fixed.
Qed.

Lemma strip_strip s : strip (strip s) = strip s.
Proof.
  destruct (strip s) as [|c middle] eqn:E; [done|].
  destruct (exists_last (l := c :: middle)) as (front & d & Heq); [done|].
  apply strip_fixed with front d; [by apply strip_head in E | | done].
  unfold strip in E. rewrite Heq in E. by apply rstrip_last in E.
Qed.

(** X7: the sanitizer leaves its own results alone: a sanitized name
    sanitizes to itself. *)
Theorem sanitize_idempotent name safe_name :
  sanitize name = Some safe_name -> sanitize safe_name = Some safe_name.
Proof.
  intros H. pose proof (sanitize_Some _ _ H) as (Hne & Hall & Hsuf).
  rewrite sanitize_eq, re_sub_id by done. cbv zeta.
  assert (strip safe_name = safe_name) as ->.
  { rewrite sanitize_eq in H. cbv zeta in H.
    destruct (strip (re_sub name)) as [|c middle] eqn:E; [done|].
    destruct (endswith (c :: middle) (lit ".txt")); injection H as <-.
    - rewrite <- E. apply strip_strip.
    - apply strip_fixed with (front := (c :: middle) ++ lit ".tx") (d := chr "t");
        [by apply strip_head in E | reflexivity |].
      by rewrite <- (assoc_L (++)). }
  destruct safe_name as [|c middle]; [done|].
  apply endswith_spec in Hsuf. by rewrite Hsuf.
Qed.

Lemma sanitize_idempotent_witness :
  sanitize (lit " a/b ") = Some (lit "a_b.txt")
  /\ sanitize (lit "a_b.txt") = Some (lit "a_b.txt").
Proof.
  assert (sanitize (lit " a/b ") = Some (lit "a_b.txt")) as H
    by (vm_compute; reflexivity).
  split; [exact H|]. exact (sanitize_idempotent _ _ H).
Defined.

(** X8: the sanitizer rejects the names made of spaces only, the empty name
    among them, and no other name: tabs, line feeds and every other
    whitespace character count as characters to replace. *)
Theorem sanitize_rejects_spaces name :
  (sanitize name = None <-> Forall (fun c => c = chr " ") name)
  /\ (forall c, c ∈ name -> c <> chr " " -> is_Some (sanitize name)).
Proof.
  split; [apply sanitize_None_spaces|].
  intros c Hin Hc. destruct (sanitize name) eqn:E; [by eexists|].
  apply sanitize_None_spaces in E. rewrite Forall_forall in E. by apply E in Hin.
Qed.

(** ** Reading the index back *)

Lemma lines_from_line cur x rest :
  10%N ∉ x -> lines_from cur (x ++ LF ++ rest) = (rev cur ++ x) :: lines_from [] rest.
Proof.
  revert cur. induction x as [|c x IH]; intros cur Hx; simpl.
  - by rewrite app_nil_r.
  - apply not_elem_of_cons in Hx as [Hc Hx].
    destruct (N.eqb_spec c 10); [done|]. rewrite IH by done.
    simpl. by rewrite <- (assoc_L (++)).
Qed.

Lemma index_content_cons x names :
  index_content (x :: names) = x ++ LF ++ index_content names.
Proof.
  unfold index_content. destruct names as [|y names]; [done|].
  simpl. by rewrite <- !(assoc_L (++)).
Qed.

(** X9: the index file can be read back: when no name holds a line feed, the
    lines of the index content are the names, in order. *)
Theorem lines_index_content names :
  Forall (fun n => 10%N ∉ n) names -> lines (index_content names) = names.
Proof.
  unfold lines. induction 1 as [|x names Hx _ IH]; [done|].
  rewrite index_content_cons, lines_from_line by done. by rewrite IH.
Qed.

Lemma lines_index_content_witness :
  Forall (fun n => 10%N ∉ n) [lit "a"; lit "b"]
  /\ lines (index_content [lit "a"; lit "b"]) = [lit "a"; lit "b"].
Proof.
  assert (Forall (fun n => 10%N ∉ n) [lit "a"; lit "b"]) as H.
  { repeat constructor; intros Hin; vm_compute in Hin;
      repeat (apply elem_of_cons in Hin as [Hin|Hin]; [discriminate|]);
      by apply elem_of_nil in Hin. }
  split; [exact H|]. exact (lines_index_content _ H).
Defined.

(** ** Further properties of the store and the handler *)



(** X11: after a store answered 200 the reply names the sanitized name, the
    index file holds the index of the directory, and the entry is listed in
    it under its name without the suffix, unless the sanitized name is
    [index.txt] or the bare [.txt]. *)
Theorem store_listed base_dir name contents safe_name w resp w' :
  sanitize name = Some safe_name ->
  store base_dir name contents w = (Ok resp, w') -> status resp = 200%Z ->
  body resp = ReplyFile safe_name
  /\ index_consistent (files w') base_dir
  /\ (safe_name <> lit "index.txt" ->
      strip_entry_suffix safe_name ∈ listing (files w') base_dir
      <-> safe_name <> lit ".txt").
Proof.
  intros Hs Hrun Hst. unfold store in Hrun. rewrite Hs in Hrun.
  apply store_entry_run in Hrun as (resp' & [= <-] & H).
  rewrite (sanitize_child _ _ _ Hs) in H. simpl in H.
  destruct H as [(_ & -> & Hf)|(e & -> & _)]; [|done].
  rewrite name_child. split; [done|].
  assert (listing (files w') base_dir
          = listing (<[base_dir ++ [safe_name] := RegularFile contents]> (files w))
              base_dir) as Hl by (by rewrite Hf, listing_insert_index).
  split.
  - unfold index_consistent. rewrite Hl. by rewrite Hf, lookup_insert_eq.
  - intros Hi. destruct (sanitize_Some _ _ Hs) as (_ & _ & [k ->]).
    rewrite Hl, elem_of_listing, strip_entry_suffix_app
      by (apply lower_txt; reflexivity).
    split.
    + intros (e & c & He & Hk & _) Heq. apply Hk.
      by apply (app_inv_tail (lit ".txt") k []).
    + intros Hne. exists (lit ".txt"), contents. split; [done|].
      split; [by intros ->|]. split; [done|]. apply lookup_insert_eq.
Qed.

Lemma store_listed_witness :
  let resp := Response 200 (ReplyFile (lit "Scene 1.txt")) in
  let w' := snd (store srv (lit "Scene 1") (lit "hello") empty_dir) in
  (sanitize (lit "Scene 1") = Some (lit "Scene 1.txt")
   /\ store srv (lit "Scene 1") (lit "hello") empty_dir = (Ok resp, w')
   /\ status resp = 200%Z)
  /\ body resp = ReplyFile (lit "Scene 1.txt")
  /\ index_consistent (files w') srv
  /\ (lit "Scene 1.txt" <> lit "index.txt" ->
      strip_entry_suffix (lit "Scene 1.txt") ∈ listing (files w') srv
      <-> lit "Scene 1.txt" <> lit ".txt").
Proof.
  intros resp w'.
  assert (sanitize (lit "Scene 1") = Some (lit "Scene 1.txt")) as H0
    by (vm_compute; reflexivity).
  assert (store srv (lit "Scene 1") (lit "hello") empty_dir = (Ok resp, w')) as H1
    by (vm_compute; reflexivity).
  assert (status resp = 200%Z) as H2 by reflexivity.
  split; [exact (conj H0 (conj H1 H2))|].
  exact (store_listed srv _ _ _ empty_dir resp w' H0 H1 H2).
Defined.







(** X15: the handler reads the announced number of bytes and no more: bytes
    that follow the announced body change nothing. *)
Theorem do_POST_reads_announced {lib : Library} base_dir header body extra w :
  body_length (Request header body) = Z.of_nat (length body) ->
  do_POST base_dir (Request header (body ++ extra)) w
  = do_POST base_dir (Request header body) w.
Proof.
  unfold do_POST, body_length. simpl. intros ->.
  rewrite Nat2Z.id, take_app_length, firstn_all. done.
Qed.

Lemma do_POST_reads_announced_witness :
  let header := Some (lit "35") in
  body_length (lib := plain_library) (Request header numbered_body)
  = Z.of_nat (length numbered_body)
  /\ do_POST (lib := plain_library) srv
       (Request header (numbered_body ++ bytes "trailing")) empty_dir
     = do_POST (lib := plain_library) srv (Request header numbered_body) empty_dir.
Proof.
  intros header.
  assert (body_length (lib := plain_library) (Request header numbered_body)
          = Z.of_nat (length numbered_body)) as H by (vm_compute; reflexivity).
  split; [exact H|].
  exact (do_POST_reads_announced (lib := plain_library) srv header numbered_body
           (bytes "trailing") empty_dir H).
Defined.

(** ** Further properties of the maintainer loop *)

Lemma maintain_once_run d w r w' :
  maintain_once d w = (r, w') ->
  r = Ok tt
  /\ (forall p, p <> d ++ [lit "index.txt"] -> files w' !! p = files w !! p)
  /\ (files w' = files w
      \/ files w' = <[d ++ [lit "index.txt"] := RegularFile []]> (files w)
      \/ files w' = <[d ++ [lit "index.txt"] :=
                        RegularFile (index_content (listing (files w) d))]> (files w))
  /\ exists printed, stdout w' = stdout w ++ printed /\ length printed <= 1
       /\ Forall (fun line => exists e,
                    line = [Literal (lit "Warning: invariant update failed: "); StrOf e])
            printed.
Proof.
  unfold maintain_once, attempt, bind, print, ret.
  destruct (write_all_scene_names d w) as [[[]|e] w1] eqn:Hrun;
    apply write_all_scene_names_run in Hrun as [Hs Hf]; intros [= <- <-]; simpl.
  - destruct Hf as [Hf _]. split; [done|]. split; [|split].
    + intros p Hp. by rewrite Hf, lookup_insert_ne.
    + auto.
    + exists []. rewrite app_nil_r. split; [done|]. split; [simpl; lia | constructor].
  - split; [done|]. split; [|split].
    + intros p Hp. destruct Hf as [-> | ->]; [done | by rewrite lookup_insert_ne].
    + destruct Hf as [-> | ->]; auto.
    + rewrite Hs. eexists [_]. split; [done|]. split; [simpl; lia|].
      repeat constructor. by eexists.
Qed.

(** X16: whatever the faults, the loop changes no path other than [index.txt]
    and prints nothing but warnings, at most one for each turn. *)
Theorem loop_touches_only_index base_dir stop_event w :
  let w' := world_of (_invariant_loop base_dir stop_event w) in
  (forall p, p <> base_dir ++ [lit "index.txt"] -> files w' !! p = files w !! p)
  /\ exists printed,
       stdout w' = stdout w ++ printed /\ length printed <= length stop_event
       /\ Forall (fun line => exists e,
                    line = [Literal (lit "Warning: invariant update failed: "); StrOf e])
            printed.
Proof.
  revert w. induction stop_event as [|[] later IH]; intros w; simpl.
  - split; [done|]. exists []. rewrite app_nil_r. split; [done|]. split; [done | constructor].
  - split; [done|]. exists []. rewrite app_nil_r. split; [done|].
    split; [simpl; lia | constructor].
  - destruct (maintain_once base_dir w) as [r w1] eqn:Hrun.
    apply maintain_once_run in Hrun as (-> & Hf & _ & (pr1 & Hs1 & Hl1 & Hw1)).
    destruct (IH w1) as (Hf2 & (pr2 & Hs2 & Hl2 & Hw2)). simpl. split.
    + intros p Hp. by rewrite Hf2, Hf.
    + exists (pr1 ++ pr2). rewrite Hs2, Hs1, (assoc_L (++)). split; [done|].
      split; [rewrite length_app; lia | by apply Forall_app].
Qed.




(** ** Startup *)

(** One [os.mkdir] either changes nothing or adds the directory where
    nothing was. *)
Lemma os_mkdir_run p w r w' :
  os_mkdir p w = (r, w') ->
  stdout w' = stdout w
  /\ ((files w' = files w /\ exists e, r = Raise e)
      \/ (files w !! p = None /\ files w' = <[p := Directory]> (files w)
          /\ r = Ok tt)).
Proof.
  unfold os_mkdir, bind, raise.
  destruct (path_error p) as [e0|]; [intros [= <- <-]; eauto|].
  destruct (os_call w) as [[[]|e] w1] eqn:Hos; apply os_call_run in Hos as [Hf Hs].
  - rewrite Hf.
    destruct p as [|c p]; [intros [= <- <-]; eauto|].
    destruct (files w !! (c :: p)) eqn:E; [intros [= <- <-]; eauto|].
    destruct (is_dir (files w) (Path.parent (c :: p))).
    + destruct (name_too_long (c :: p)); intros [= <- <-]; [eauto|].
      split; [done|]. right. done.
    + destruct (files w !! Path.parent (c :: p)); intros [= <- <-]; eauto.
  - intros [= <- <-]. eauto.
Qed.

Lemma os_mkdir_keeps p w r w' :
  os_mkdir p w = (r, w') -> files w ⊆ files w' /\ stdout w' = stdout w.
Proof.
  intros [Hs [[-> _]|(Hn & -> & _)]]%os_mkdir_run; split; try done.
  by apply insert_subseteq.
Qed.

Lemma mkdir_exists_keeps p e w r w' :
  mkdir_exists p e w = (r, w') -> w' = w.
Proof.
  unfold mkdir_exists, bind, get_files, ret, raise.
  destruct (is_OSError e); [|by intros [= <- <-]].
  destruct (is_dir (files w) p); by intros [= <- <-].
Qed.

Lemma mkdir_here_keeps p w r w' :
  mkdir_here p w = (r, w') -> files w ⊆ files w' /\ stdout w' = stdout w.
Proof.
  unfold mkdir_here, attempt, bind, ret, raise.
  destruct (os_mkdir p w) as [[[]|e] w1] eqn:H; apply os_mkdir_keeps in H.
  - by intros [= <- <-].
  - destruct (is_FileNotFoundError e); [by intros [= <- <-]|].
    by intros ->%mkdir_exists_keeps.
Qed.

Lemma mkdir_parents_keeps rp w r w' :
  mkdir_parents rp w = (r, w') -> files w ⊆ files w' /\ stdout w' = stdout w.
Proof.
  revert w r w'. induction rp as [|c rp IH]; intros w r w'; cbn [mkdir_parents];
    unfold attempt, bind, ret, raise;
    destruct (os_mkdir _ w) as [[[]|e] w1] eqn:H; apply os_mkdir_keeps in H as [H1 H2];
    try (by intros [= <- <-]).
  - destruct (is_FileNotFoundError e); [by intros [= <- <-]|].
    by intros ->%mkdir_exists_keeps.
  - destruct (is_FileNotFoundError e).
    + destruct (mkdir_parents rp w1) as [[[]|e2] w2] eqn:H3; apply IH in H3 as [H3 H4].
      * intros [H5 H6]%mkdir_here_keeps. split; [|congruence].
        by repeat (etrans; [eassumption|]).
      * intros [= <- <-]. split; [by etrans | congruence].
    + by intros ->%mkdir_exists_keeps.
Qed.








(** X18: startup never removes or overwrites an entry: whatever the faults,
    every path other than [index.txt] that was there is there as it was; and
    startup raises only when making the directory raises, a failing first
    rebuild being only a warning. *)
Theorem run_startup_keeps_entries base_dir w r w' :
  run_startup base_dir w = (r, w') ->
  (forall p nd, p <> base_dir ++ [lit "index.txt"] ->
     files w !! p = Some nd -> files w' !! p = Some nd)
  /\ (forall e, r = Raise e -> mkdir base_dir w = (Raise e, w')).
Proof.
  unfold run_startup, attempt, bind, print, ret.
  destruct (mkdir base_dir w) as [[[]|e] w1] eqn:Hm.
  - apply mkdir_parents_keeps in Hm as [Hsub _].
    destruct (write_all_scene_names base_dir w1) as [[[]|e] w2] eqn:Hr;
      apply write_all_scene_names_run in Hr as [_ Hr]; intros [= <- <-];
      (split; [|done]); intros p nd Hp Hnd; apply (lookup_weaken _ _ _ _ Hnd) in Hsub.
    + destruct Hr as [-> _]. by rewrite lookup_insert_ne.
    + simpl. destruct Hr as [-> | ->]; [done | by rewrite lookup_insert_ne].
  - intros [= <- <-]. apply mkdir_parents_keeps in Hm as Hk. destruct Hk as [Hsub _].
    split; [|by intros ? [= <-]]. intros p nd _ Hnd. by apply (lookup_weaken _ _ _ _ Hnd).
Qed.

Lemma run_startup_keeps_entries_witness :
  let run := run_startup srv sample_dir in
  run = (fst run, snd run)
  /\ (forall p nd, p <> srv ++ [lit "index.txt"] ->
        files sample_dir !! p = Some nd -> files (snd run) !! p = Some nd)
  /\ (forall e, fst run = Raise e -> mkdir srv sample_dir = (Raise e, snd run)).
Proof.
  intros run.
  assert (run = (fst run, snd run)) as H by (vm_compute; reflexivity).
  split; [exact H|]. exact (run_startup_keeps_entries srv sample_dir _ _ H).
Defined.




(** ** How stores compose *)

(** What a store does to the files, whatever it answers: the entry may be
    written, in full or left empty, and the index after it. *)
Lemma store_files d name contents w r w' :
  store d name contents w = (r, w') ->
  files w' = files w
  \/ exists safe_name c, sanitize name = Some safe_name /\
       let entry := <[d ++ [safe_name] := RegularFile c]> (files w) in
       files w' = entry
       \/ exists c', files w' = <[d ++ [lit "index.txt"] := RegularFile c']> entry.
Proof.
  unfold store. destruct (sanitize name) as [safe_name|] eqn:Hs;
    [|intros [= <- <-]; by left].
  unfold store_entry, attempt, bind, ret. rewrite (sanitize_child _ _ _ Hs).
  destruct (write_text _ contents w) as [[[]|e] w1] eqn:Hw;
    apply write_text_run in Hw as [_ Hw].
  - destruct Hw as [Hw Hnd]. intros Hrun. right. exists safe_name, contents.
    split; [done|]. cbv zeta. rewrite <- Hw.
    destruct (write_all_scene_names d w1) as [[[]|e] w2] eqn:Hr;
      apply write_all_scene_names_run in Hr as [_ Hr]; injection Hrun as <- <-.
    + destruct Hr as [-> _]. right. by eexists.
    + simpl. destruct Hr as [-> | ->]; [by left | right; by eexists].
  - intros [= <- <-]. simpl. destruct Hw as [-> | ->]; [by left|].
    right. exists safe_name, []. split; [done|]. by left.
Qed.

(** X20: nothing a store does removes a name from the index: a name a scan
    returned before a store, whatever the store answers, is returned by a
    scan after it. *)
Theorem store_keeps_listed base_dir name contents w r w' (s : str) :
  store base_dir name contents w = (r, w') ->
  s ∈ listing (files w) base_dir -> s ∈ listing (files w') base_dir.
Proof.
  intros Hrun. rewrite !elem_of_listing. intros (e & c & He & Hs & Hi & Hf).
  apply store_files in Hrun as [->|(safe_name & c0 & _ & Hw)]; [by exists e, c|].
  assert (exists c', (<[base_dir ++ [safe_name] := RegularFile c0]> (files w))
                       !! (base_dir ++ [s ++ e]) = Some (RegularFile c'))
    as [c' Hentry].
  { destruct (decide (base_dir ++ [safe_name] = base_dir ++ [s ++ e])) as [->|Hne].
    - exists c0. apply lookup_insert_eq.
    - exists c. by rewrite lookup_insert_ne. }
  exists e, c'. repeat split; try done.
  destruct Hw as [-> | [c1 ->]]; [done|].
  rewrite lookup_insert_ne; [done|]. intros Heq%app_inv_head. congruence.
Qed.

Lemma store_keeps_listed_witness :
  let run := store srv (lit "c") (lit "third") sample_dir in
  (run = (fst run, snd run) /\ lit "a" ∈ listing (files sample_dir) srv)
  /\ lit "a" ∈ listing (files (snd run)) srv.
Proof.
  intros run.
  assert (run = (fst run, snd run)) as H by (vm_compute; reflexivity).
  assert (lit "a" ∈ listing (files sample_dir) srv) as H1.
  { replace (listing (files sample_dir) srv) with [lit "a"; lit "b"]
      by (vm_compute; reflexivity). left. }
  split; [exact (conj H H1)|].
  exact (store_keeps_listed srv _ _ sample_dir _ _ (lit "a") H H1).
Defined.

(** X21: stores of two different entries commute: when all four stores
    answer 200, the files are the same whichever entry is stored first. *)
Theorem store_commute base_dir n1 c1 n2 c2 s1 s2 w ra wa ra' wa' rb wb rb' wb' :
  sanitize n1 = Some s1 -> sanitize n2 = Some s2 -> s1 <> s2 ->
  store base_dir n1 c1 w = (Ok ra, wa) -> status ra = 200%Z ->
  store base_dir n2 c2 wa = (Ok ra', wa') -> status ra' = 200%Z ->
  store base_dir n2 c2 w = (Ok rb, wb) -> status rb = 200%Z ->
  store base_dir n1 c1 wb = (Ok rb', wb') -> status rb' = 200%Z ->
  files wa' = files wb'.
Proof.
  intros H1 H2 Hne Ha Hsa Ha' Hsa' Hb Hsb Hb' Hsb'.
  apply store_ok in Ha as (x & Hx & Ha); [|done]. rewrite H1 in Hx. injection Hx as <-.
  apply store_ok in Ha' as (x & Hx & Ha'); [|done]. rewrite H2 in Hx. injection Hx as <-.
  apply store_ok in Hb as (x & Hx & Hb); [|done]. rewrite H2 in Hx. injection Hx as <-.
  apply store_ok in Hb' as (x & Hx & Hb'); [|done]. rewrite H1 in Hx. injection Hx as <-.
  assert (base_dir ++ [s1] <> base_dir ++ [s2]) as Hp
    by (intros Heq%app_inv_head; congruence).
  assert (forall p, Path.name p <> lit "index.txt" ->
            p <> base_dir ++ [lit "index.txt"]) as Hidx
    by (intros p Hn ->; by rewrite name_child in Hn).
  rewrite Ha', Hb', Ha, Hb.
  match goal with
  | |- <[_ := RegularFile (index_content ?la)]> _
       = <[_ := RegularFile (index_content ?lb)]> _ =>
      assert (la = lb) as ->
  end.
  { apply listing_ext. intros p Hn. specialize (Hidx p Hn). unfold is_file.
    rewrite !lookup_insert. repeat case_decide; try congruence. }
  apply map_eq. intros p. rewrite !lookup_insert.
  repeat case_decide; congruence.
Qed.

Lemma store_commute_witness :
  let ra := Response 200 (ReplyFile (lit "a.txt")) in
  let rb := Response 200 (ReplyFile (lit "b.txt")) in
  let wa := snd (store srv (lit "a") (lit "x") empty_dir) in
  let wa' := snd (store srv (lit "b") (lit "y") wa) in
  let wb := snd (store srv (lit "b") (lit "y") empty_dir) in
  let wb' := snd (store srv (lit "a") (lit "x") wb) in
  (sanitize (lit "a") = Some (lit "a.txt") /\ sanitize (lit "b") = Some (lit "b.txt")
   /\ lit "a.txt" <> lit "b.txt"
   /\ store srv (lit "a") (lit "x") empty_dir = (Ok ra, wa)
   /\ store srv (lit "b") (lit "y") wa = (Ok rb, wa')
   /\ store srv (lit "b") (lit "y") empty_dir = (Ok rb, wb)
   /\ store srv (lit "a") (lit "x") wb = (Ok ra, wb'))
  /\ files wa' = files wb'.
Proof.
  intros ra rb wa wa' wb wb'.
  assert (sanitize (lit "a") = Some (lit "a.txt")) as H1 by (vm_compute; reflexivity).
  assert (sanitize (lit "b") = Some (lit "b.txt")) as H2 by (vm_compute; reflexivity).
  assert (lit "a.txt" <> lit "b.txt") as H3 by (vm_compute; discriminate).
  assert (store srv (lit "a") (lit "x") empty_dir = (Ok ra, wa)) as H4
    by (vm_compute; reflexivity).
  assert (store srv (lit "b") (lit "y") wa = (Ok rb, wa')) as H5
    by (vm_compute; reflexivity).
  assert (store srv (lit "b") (lit "y") empty_dir = (Ok rb, wb)) as H6
    by (vm_compute; reflexivity).
  assert (store srv (lit "a") (lit "x") wb = (Ok ra, wb')) as H7
    by (vm_compute; reflexivity).
  split; [exact (conj H1 (conj H2 (conj H3 (conj H4 (conj H5 (conj H6 H7))))))|].
  exact (store_commute srv _ _ _ _ _ _ empty_dir ra wa rb wa' rb wb ra wb'
           H1 H2 H3 H4 eq_refl H5 eq_refl H6 eq_refl H7 eq_refl).
Defined.
